(** * LuigiNLP engine: format matching, input resolution, parameter
      propagation and output-directory marking

    A shallow embedding of [luiginlp/engine.py].  Python exceptions are
    values of an error type and every fallible function returns a
    [result]; the file system, the attribute dictionaries and the slot feed
    are finite maps; the class-level list [accepted_components] lives in a
    small store of list objects so that sharing between classes is
    visible. *)

From Stdlib Require Import Ascii DecimalString.
From stdpp Require Import base option list strings gmap fin_maps.



(** ** Exceptions and results *)

(** The exception classes of the module (lines 34-50) and the built-in
    ones that the modelled code can raise.  Each carries [str(e)]. *)
Inductive exn : Type :=
  | InvalidInput (msg : string)
  | MissingInput (msg : string)
  | EmptyDirectory (msg : string)
  | AutoSetupError (msg : string)
  | SchedulingError (msg : string)
  | FileNotFoundError (msg : string)
  | AttributeError (msg : string)
  | TypeError (msg : string)
  | IndexError (msg : string)
  | OSError (msg : string).

Inductive result (A : Type) : Type :=
  | Ok (a : A)
  | Raise (e : exn).
Arguments Ok {A} a.
Arguments Raise {A} e.

Definition bind {A B : Type} (r : result A) (k : A → result B) : result B :=
  match r with
  | Ok a => k a
  | Raise e => Raise e
  end.

Notation "x ←! r ; k" := (bind r (λ x, k))
  (at level 100, r at next level, k at level 200, right associativity).

(** ** Python strings *)

Module Str.

Fixpoint take (n : nat) (s : string) : string :=
  match n, s with
  | S n', String c s' => String c (take n' s')
  | _, _ => ""
  end.

Fixpoint drop (n : nat) (s : string) : string :=
  match n, s with
  | S n', String _ s' => drop n' s'
  | _, _ => s
  end.

Abbreviation len := String.length.

(** [s.endswith(suffix)] *)
Definition endswith (s suffix : string) : bool :=
  bool_decide (drop (len s - len suffix) s = suffix).

(** [s[:-k]] for [k >= 1]: everything but the last [k] characters, the
    empty string when [s] is shorter than [k]. *)
Definition slice_to_neg (s : string) (k : nat) : string :=
  take (len s - k) s.

(** [s[:n]] and [s[n:]] *)
Definition slice_to (s : string) (n : nat) : string := take n s.
Definition slice_from (s : string) (n : nat) : string := drop n s.

(** [sep.join(l)] *)
Fixpoint join (sep : string) (l : list string) : string :=
  match l with
  | [] => ""
  | [x] => x
  | x :: rest => x +:+ sep +:+ join sep rest
  end.

End Str.

(** ** Attribute values and the file system *)

(** Values held by attributes and parameters of components and tasks. *)
Inductive PyVal : Type :=
  | VStr (s : string)
  | VBool (b : bool)
  | VInt (z : Z)
  | VNone.

Global Instance PyVal_eq_dec : EqDecision PyVal.
Proof. solve_decision. Defined.

(** What the code sees of the file system: which paths exist, and for a
    directory the names of its entries, which are the names that
    [glob(d/ * )] returns (hidden entries, which [glob] skips, are not
    modelled). *)
Inductive Node : Type :=
  | File
  | Dir (entries : list string).

Abbreviation FS := (gmap string Node).

(** [os.path.exists(p)] *)
Definition path_exists (fs : FS) (p : string) : bool :=
  match fs !! p with
  | Some _ => true
  | None => false
  end.

(** ** InputFormat (lines 78-115) *)

Record InputFormat : Type := mkInputFormat {
  valid : bool;
  format_id : string;
  directory : bool;
  basename : option string;
  extension : option string;
}.

(** The [extension] argument: one string or a sequence of strings
    (lines 87-90). *)
Inductive ExtArg : Type :=
  | ExtStr (e : string)
  | ExtSeq (es : list string).

Definition extensions_of (extension : ExtArg) : list string :=
  match extension with
  | ExtStr e => [e]
  | ExtSeq es => es
  end.

(** Line 94: [if extension[0] == '.': extension = extension[1:]].
    Indexing the empty string raises [IndexError]. *)
Definition strip_dot (extension : string) : result string :=
  match extension with
  | "" => Raise (IndexError "string index out of range")
  | String c rest =>
      Ok (if Ascii.eqb c "." then rest else extension)
  end.

(** The declared extension with one leading dot removed. *)
Definition ext_name (extension : string) : string :=
  match extension with
  | String c rest => if Ascii.eqb c "." then rest else extension
  | "" => ""
  end.

(** [getattr(workflow, inputparameter).endswith(...)]: only a string has
    the method. *)
Definition as_str (v : PyVal) : result string :=
  match v with
  | VStr s => Ok s
  | _ => Raise (AttributeError "object has no attribute 'endswith'")
  end.

Definition missing_file_msg (format_id cls basename extension : string) : string :=
  "Specified input file for format " +:+ format_id +:+ " to " +:+ cls
    +:+ " does not exist: " +:+ basename +:+ "." +:+ extension.

(** The loop of lines 93-101.  [Ok None] is a finished loop without a
    match, [Ok (Some (basename, extension))] the match that sets
    [self.valid]. *)
Fixpoint match_extensions (fs : FS) (cls format_id : string) (path : PyVal)
    (force : bool) (extensions : list string) : result (option (string * string)) :=
  match extensions with
  | [] => Ok None
  | extension :: rest =>
      extension ←! strip_dot extension;
      p ←! as_str path;
      if Str.endswith p ("." +:+ extension) || force then
        let basename := Str.slice_to_neg p (Str.len extension + 1) in
        if path_exists fs (basename +:+ "." +:+ extension)
        then Ok (Some (basename, extension))
        else Raise (FileNotFoundError (missing_file_msg format_id cls basename extension))
      else match_extensions fs cls format_id path force rest
  end.

(** [InputFormat.__init__] (lines 81-101).  [cls] is
    [workflow.__class__.__name__] and [wattrs] the attributes of the
    workflow instance. *)
Definition InputFormat_init (fs : FS) (cls : string) (wattrs : gmap string PyVal)
    (format_id : string) (extension : ExtArg) (inputparameter : string)
    (directory force : bool) : result InputFormat :=
  let extensions := extensions_of extension in
  match wattrs !! inputparameter with
  | None =>
      Raise (AttributeError ("Workflow " +:+ cls +:+ " has no attribute " +:+ inputparameter))
  | Some path =>
      m ←! match_extensions fs cls format_id path force extensions;
      match m with
      | Some (basename, extension) =>
          Ok (mkInputFormat true format_id directory (Some basename) (Some extension))
      | None =>
          Ok (mkInputFormat false format_id directory None None)
      end
  end.

(** ** Tasks, output slots and the slot feed *)

(** A task instance: its [instance_name], its class, the parameters it
    was created with and the attribute names that [dir(task)] lists. *)
Record TaskObj : Type := mkTask {
  task_name : string;
  task_class : string;
  task_params : list (string * PyVal);
  task_attrs : list string;
}.

(** An output slot is the bound method [getattr(task, attrname)]. *)
Inductive Slot : Type :=
  | BoundMethod (task : TaskObj) (attrname : string).

(** A binding of [input_feeds]: one slot, or a Python list of slots. *)
Inductive FeedVal : Type :=
  | Single (s : Slot)
  | Multiple (l : list Slot).

Abbreviation Feed := (gmap string FeedVal).

(** [InputFormat.task(workflow)] for a valid format (line 113):
    [workflow.new_task('inputtask_' + format_id, InputTask, ...)]. *)
Definition InputFormat_task (input : InputFormat) : TaskObj :=
  mkTask ("inputtask_" +:+ format_id input) "InputTask"
    [("basename", from_option VStr VNone (basename input));
     ("format_id", VStr (format_id input));
     ("extension", from_option VStr VNone (extension input));
     ("directory", VBool (directory input))]
    ["basename"; "directory"; "extension"; "format_id"; "out_default"].

(** Lines 257-263: bind one more producer of [format_id]. *)
Definition add_producer (input_feeds : Feed) (format_id : string) (slot : Slot) : Feed :=
  match input_feeds !! format_id with
  | Some (Multiple l) => <[format_id := Multiple (l ++ [slot])]> input_feeds
  | Some (Single s) => <[format_id := Multiple [s; slot]]> input_feeds
  | None => <[format_id := Single slot]> input_feeds
  end.

(** One turn of the loop of line 254: an attribute named [out_...]
    is a producer of the format id after the prefix. *)
Definition merge_step (inputtask : TaskObj) (input_feeds : Feed) (attrname : string) : Feed :=
  if bool_decide (Str.slice_to attrname 4 = "out_")
  then add_producer input_feeds (Str.slice_from attrname 4) (BoundMethod inputtask attrname)
  else input_feeds.

(** Lines 254-263 for one task. *)
Definition merge_task (input_feeds : Feed) (inputtask : TaskObj) : Feed :=
  fold_left (merge_step inputtask) (task_attrs inputtask) input_feeds.

(** What [setup()] returned: a single [Task], or a sequence whose
    elements may or may not be [Task] instances ([None] is an element
    that is not). *)
Inductive SetupRet : Type :=
  | RetTask (t : TaskObj)
  | RetSeq (ts : list (option TaskObj)).

(** Lines 250-263. *)
Fixpoint merge_tasks (input_feeds : Feed) (inputtasks : list (option TaskObj)) : result Feed :=
  match inputtasks with
  | [] => Ok input_feeds
  | Some inputtask :: rest => merge_tasks (merge_task input_feeds inputtask) rest
  | None :: _ => Raise (TypeError "setup() did not return a Task or a sequence of Tasks")
  end.

Definition tasks_of (r : SetupRet) : list (option TaskObj) :=
  match r with
  | RetTask t => [Some t]
  | RetSeq ts => ts
  end.

(** ** Components and what [accepts()] returns *)

(** An element of an acceptance tuple.  [ItInputComponent swf] is an
    [InputComponent] together with the instance
    [input.Class( *input.args, **input.kwargs)] it yields (line 230).
    [ItClass name inst] is a bare component class (line 231): line 234
    reads [input.args] and [input.kwargs] off the class object itself,
    so [inst] is [None] when the class has no such attributes and the
    instance built from them otherwise.  [ItOther] is anything else. *)
Inductive Item (C : Type) : Type :=
  | ItInputFormat (input : InputFormat)
  | ItInputComponent (swf : C)
  | ItClass (name : string) (inst : option C)
  | ItOther (repr : string).
Arguments ItInputFormat {C} input.
Arguments ItInputComponent {C} swf.
Arguments ItClass {C} name inst.
Arguments ItOther {C} repr.

(** An element of the sequence iterated at line 212: a tuple of items,
    or a single object that line 214 wraps into a one-element tuple. *)
Inductive Group (C : Type) : Type :=
  | GTuple (items : list (Item C))
  | GItem (item : Item C).
Arguments GTuple {C} items.
Arguments GItem {C} item.

(** The value of [self.accepts()]: a tuple or list, or a single object
    that line 211 wraps. *)
Inductive AcceptsRet (C : Type) : Type :=
  | AccSeq (groups : list (Group C))
  | AccOne (item : Item C).
Arguments AccSeq {C} groups.
Arguments AccOne {C} item.

(** A component instance, with the outcome of the methods that its
    class supplies: [accepts()], which constructs the [InputFormat]s
    and may therefore raise, and [setup(workflow, input_feeds)].
    [startcomponent] is the name that the attribute holds after
    line 204; [accepted_components] is the value of
    [self.accepted_components]. *)
Inductive Component : Type := mkComponent {
  class_name : string;
  startcomponent : string;
  inputslot : string;
  attrs : gmap string PyVal;
  accepts : result (AcceptsRet Component);
  accepted_components : list (Item Component);
  setup : Feed → result SetupRet;
}.

(** ** setup_input (lines 203-272) *)

(** How the body of the inner loop leaves one item: on to the next item
    ([continue] or falling off the end of the body), [break], or an
    exception that leaves [setup_input]. *)
Inductive ItemOutcome : Type :=
  | Next (input_feeds : Feed) (inputlog : list string)
  | Break (input_feeds : Feed) (inputlog : list string)
  | Fail (e : exn).

(** How the inner loop ended. *)
Inductive LoopExit : Type :=
  | Completed
  | Aborted.

Section Resolver.

(** [swf.setup_input(workflow)] for a sub-component. *)
Variable setup_input_rec : Component → result Feed.

Definition tried_msg (swf : Component) (e : string) : string :=
  "(Tried workflow " +:+ class_name swf
    +:+ " in accept chain, does not handle provided input: " +:+ e +:+ ")".

(** Lines 238-263 for the instance [swf]. *)
Definition run_subworkflow (swf : Component) (input_feeds : Feed)
    (inputlog : list string) : ItemOutcome :=
  match (new_input_feeds ←! setup_input_rec swf; setup swf new_input_feeds) with
  | Raise (InvalidInput e) => Break input_feeds (inputlog ++ [tried_msg swf e])
  | Raise e => Fail e
  | Ok inputtasks =>
      match merge_tasks input_feeds (tasks_of inputtasks) with
      | Ok input_feeds' => Next input_feeds' inputlog
      | Raise e => Fail e
      end
  end.

(** The body of the inner loop (lines 216-263). *)
Definition run_item (self : Component) (input : Item Component)
    (input_feeds : Feed) (inputlog : list string) : ItemOutcome :=
  match input with
  | ItInputFormat input =>
      if negb (String.eqb (startcomponent self) "")
         && negb (String.eqb (startcomponent self) (class_name self))
      then
        Break input_feeds
          (inputlog ++ ["startcomponent does not match " +:+ class_name self
                          +:+ ", skipping InputFormat " +:+ format_id input])
      else if valid input
              && (String.eqb (inputslot self) ""
                  || String.eqb (inputslot self) (format_id input))
      then
        Next (<[format_id input := Single (BoundMethod (InputFormat_task input) "out_default")]> input_feeds)
          (inputlog ++ ["InputFormat " +:+ format_id input +:+ " matches!"])
      else
        Break input_feeds
          (inputlog ++ ["InputFormat " +:+ format_id input
                          +:+ " does not match (inputslot=" +:+ inputslot self +:+ ")"])
  | ItInputComponent swf => run_subworkflow swf input_feeds inputlog
  | ItClass name None =>
      Fail (AttributeError ("type object '" +:+ name +:+ "' has no attribute 'args'"))
  | ItClass name (Some swf) => run_subworkflow swf input_feeds inputlog
  | ItOther repr =>
      Fail (TypeError ("Invalid element in accepts(), must be Inputformat or InputComponent, got " +:+ repr))
  end.

(** The inner loop (line 215) from the current feed and log. *)
Fixpoint run_items (self : Component) (inputtuple : list (Item Component))
    (input_feeds : Feed) (inputlog : list string)
    : result (LoopExit * Feed * list string) :=
  match inputtuple with
  | [] => Ok (Completed, input_feeds, inputlog)
  | input :: rest =>
      match run_item self input input_feeds inputlog with
      | Next input_feeds' inputlog' => run_items self rest input_feeds' inputlog'
      | Break input_feeds' inputlog' => Ok (Aborted, input_feeds', inputlog')
      | Fail e => Raise e
      end
  end.

(** Lines 213-215 for one element of the chain: the feed is reset and
    a non-tuple is treated as a one-element tuple. *)
Definition run_group (self : Component) (inputtuple : Group Component)
    (inputlog : list string) : result (LoopExit * Feed * list string) :=
  match inputtuple with
  | GTuple items => run_items self items ∅ inputlog
  | GItem input =>
      match run_item self input ∅ inputlog with
      | Next input_feeds' inputlog' => Ok (Completed, input_feeds', inputlog')
      | Break input_feeds' inputlog' => Ok (Aborted, input_feeds', inputlog')
      | Fail e => Raise e
      end
  end.

End Resolver.

(** The outer loop (lines 212-269) over part of the chain, [run] being
    the inner loop for one element: [inl] is the feed returned at
    line 269, [inr] the log once the part is exhausted. *)
Section OuterLoop.

Context {X : Type}.
Variable run : X → list string → result (LoopExit * Feed * list string).

Fixpoint try_each (elements : list X) (inputlog : list string)
    : result (Feed + list string) :=
  match elements with
  | [] => Ok (inr inputlog)
  | inputtuple :: rest =>
      match run inputtuple inputlog with
      | Raise e => Raise e
      | Ok (_, input_feeds, inputlog') =>
          if bool_decide (0 < size input_feeds)
          then Ok (inl input_feeds)
          else try_each rest inputlog'
      end
  end.

End OuterLoop.

Definition try_groups (setup_input_rec : Component → result Feed)
    (self : Component) (groups : list (Group Component))
    (inputlog : list string) : result (Feed + list string) :=
  try_each (run_group setup_input_rec self) groups inputlog.



(** Lines 208-209. *)
Definition initial_log (self : Component) : result (list string) :=
  match attrs self !! "inputfile" with
  | None => Ok []
  | Some (VStr inputfile) => Ok ["inputfile=" +:+ inputfile]
  | Some _ => Raise (TypeError "can only concatenate str to str")
  end.

Definition no_entry_point (inputlog : list string) : exn :=
  InvalidInput ("Unable to find an entry point for supplied input: "
                  +:+ Str.join "; " inputlog).

(** Lines 210-211: a value that is neither tuple nor list is wrapped. *)
Definition groups_of (accepted : AcceptsRet Component) : list (Group Component) :=
  match accepted with
  | AccSeq groups => groups
  | AccOne item => [GItem item]
  end.

(** [itertools.chain(accepts, self.accepted_components)] (line 212): the
    declared alternatives, then the injected classes, each of them a
    non-tuple element. *)
Definition chain (accepted : AcceptsRet Component)
    (injected : list (Item Component)) : list (Group Component) :=
  groups_of accepted ++ map GItem injected.

(** [WorkflowComponent.setup_input]: [accepts()] is evaluated first
    (line 206), then the chain is walked, which being lazy yields the
    declared alternatives and after them the injected classes; an
    exhausted chain raises [InvalidInput] with the joined log
    (line 272). *)
Fixpoint setup_input (self : Component) : result Feed :=
  match self with
  | mkComponent _ _ _ _ acc injected _ =>
      match acc with
      | Raise e => Raise e
      | Ok accepted =>
          match initial_log self with
          | Raise e => Raise e
          | Ok inputlog =>
              let declared :=
                match accepted with
                | AccSeq groups => try_each (run_group setup_input self) groups inputlog
                | AccOne item => try_each (run_group setup_input self) [GItem item] inputlog
                end in
              match declared with
              | Raise e => Raise e
              | Ok (inl input_feeds) => Ok input_feeds
              | Ok (inr inputlog') =>
                  match
                    try_each (λ c, run_group setup_input self (GItem c)) injected inputlog'
                  with
                  | Raise e => Raise e
                  | Ok (inl input_feeds) => Ok input_feeds
                  | Ok (inr inputlog'') => Raise (no_entry_point inputlog'')
                  end
              end
          end
      end
  end.

(** The resolver over an explicit chain: what [setup_input] does once
    [accepts()] has returned and the log is initialised. *)
Definition resolve (self : Component) (groups : list (Group Component))
    (inputlog : list string) : result Feed :=
  match try_groups setup_input self groups inputlog with
  | Raise e => Raise e
  | Ok (inl input_feeds) => Ok input_feeds
  | Ok (inr inputlog') => Raise (no_entry_point inputlog')
  end.

(** [self.setup_input] followed by [self.setup], as lines 239-240 call
    them on a sub-component. *)
Definition setup_chain (swf : Component) : result SetupRet :=
  new_input_feeds ←! setup_input swf; setup swf new_input_feeds.

(** ** Vocabulary of the statements *)

(** [p] ends in a dot followed by [e]. *)
Definition has_suffix (p e : string) : Prop := ∃ b, p = b +:+ "." +:+ e.


(** ** Parameter propagation: InputComponent (lines 52-63) *)

(** What the loop of lines 60-63 sees of the child class: the names
    that [dir(Class)] lists, each with whether the attribute is a
    [luigi.Parameter]. *)
Record ClassInfo : Type := mkClassInfo {
  cls_name : string;
  cls_dir : list (string * bool);
}.

Record InputComponent : Type := mkInputComponent {
  Class : ClassInfo;
  args : list PyVal;
  kwargs : gmap string PyVal;
}.

(** The parameter names that the child class declares. *)
Definition declared_parameters (cls : ClassInfo) : list string :=
  map fst (filter (λ kv, snd kv = true) (cls_dir cls)).

(** One turn of the loop of lines 60-63. *)
Definition transfer (parentcomponent : gmap string PyVal)
    (kwargs : gmap string PyVal) (entry : string * bool) : gmap string PyVal :=
  let '(key, is_parameter) := entry in
  if is_parameter then
    match kwargs !! key with
    | Some _ => kwargs
    | None =>
        match parentcomponent !! key with
        | Some v => <[key := v]> kwargs
        | None => kwargs
        end
    end
  else kwargs.

(** [InputComponent.__init__]; [parentcomponent] holds the attributes
    of the parent instance. *)
Definition InputComponent_init (parentcomponent : gmap string PyVal)
    (cls : ClassInfo) (args : list PyVal) (kwargs : gmap string PyVal)
    : InputComponent :=
  mkInputComponent cls args (fold_left (transfer parentcomponent) (cls_dir cls) kwargs).

(** ** Output directories of a task (lines 298-343) *)

(** For the methods of [Task] the store is read as the listing of the
    working directory of the process, on a file system that compares
    names byte by byte: a key is the name of one entry, and the node
    says whether the entry is a regular file or a directory and, for a
    directory, what it holds.  [rename] and [makedirs] below are the
    functions of [os] on such names.  Paths with several components,
    several spellings of one entry, links, permissions and the limits
    of the file system are outside this reading; the statements about
    output directories are therefore made for plain names on a flat
    store (see [plain_name] and [flat]). *)

(** [os.rename(src, dst)] between two names of the working directory,
    with the behaviour of a POSIX system: an existing [dst] is replaced
    by a file when it is a file and by a directory when it is an empty
    directory; every other clash is an [OSError]. *)
Definition rename (fs : FS) (src dst : string) : result FS :=
  match fs !! src with
  | None => Raise (FileNotFoundError ("No such file or directory: " +:+ src))
  | Some node =>
      match node, fs !! dst with
      | _, None => Ok (<[dst := node]> (delete src fs))
      | File, Some File => Ok (<[dst := node]> (delete src fs))
      | Dir _, Some (Dir []) => Ok (<[dst := node]> (delete src fs))
      | File, Some (Dir _) => Raise (OSError ("Is a directory: " +:+ dst))
      | Dir _, Some File => Raise (OSError ("Not a directory: " +:+ dst))
      | Dir _, Some (Dir (_ :: _)) => Raise (OSError ("Directory not empty: " +:+ dst))
      end
  end.

(** [os.makedirs(d)] for a name of the working directory that does not
    exist. *)
Definition makedirs (fs : FS) (d : string) : FS := <[d := Dir []]> fs.

(** [glob.glob(os.path.join(d, '*'))] *)
Definition glob_all (fs : FS) (d : string) : list string :=
  match fs !! d with
  | Some (Dir entries) => entries
  | _ => []
  end.

(** The two private attributes that the methods of [Task] read.  The
    name [__output_dir] is assigned by [setup_output_dir]; no statement
    of the module assigns [__output_dirs].  [None] is an attribute that
    is not set. *)
Record TaskState : Type := mkTaskState {
  output_dir : option (list string);
  output_dirs : option (list string);
}.

(** A task on which [setup_output_dir] has not been called. *)
Definition new_task_state : TaskState := mkTaskState None None.

(** [Task.setup_output_dir] (lines 301-312). *)
Definition setup_output_dir (fs : FS) (self : TaskState) (d : string)
    : result (FS * TaskState) :=
  fs' ←! (if path_exists fs d then Ok fs
          else if path_exists fs (d +:+ ".failed") then rename fs (d +:+ ".failed") d
          else Ok (makedirs fs d));
  Ok (fs',
      mkTaskState
        (match output_dir self with
         | Some l => Some (l ++ [d])
         | None => Some [d]
         end)
        (output_dirs self)).

(** The loop of lines 317-319.  The file system changes made before an
    exception stay. *)
Fixpoint mark_failed (fs : FS) (dirs : list string) : FS * result unit :=
  match dirs with
  | [] => (fs, Ok ())
  | d :: rest =>
      if path_exists fs d then
        match rename fs d (d +:+ ".failed") with
        | Ok fs' => mark_failed fs' rest
        | Raise e => (fs, Raise e)
        end
      else mark_failed fs rest
  end.

(** [Task.on_failure] up to the call of the inherited handler
    (lines 315-321): a missing attribute raises [AttributeError], which
    is caught. *)
Definition on_failure (fs : FS) (self : TaskState) : FS * result unit :=
  match output_dir self with
  | None => (fs, Ok ())
  | Some [] => (fs, Ok ())
  | Some dirs => mark_failed fs dirs
  end.

(** [os.path.exists] applied to a list object, as line 329 applies it
    to [self.__output_dir]: the underlying [os.stat] raises
    [TypeError]. *)
Definition path_exists_of_list (l : list string) : result bool :=
  Raise (TypeError "stat: path should be string, bytes, os.PathLike or integer, not list").

(** The loop of lines 328-334 over [self.__output_dirs], with the
    list [failed] so far. *)
Fixpoint check_empty (fs : FS) (output_dir dirs failed : list string)
    : FS * result (list string) :=
  match dirs with
  | [] => (fs, Ok failed)
  | d :: rest =>
      match path_exists_of_list output_dir with
      | Raise e => (fs, Raise e)
      | Ok false => check_empty fs output_dir rest failed
      | Ok true =>
          match filter (λ f, f ∉ ["."; ".."]) (glob_all fs d) with
          | [] =>
              match rename fs d (d +:+ ".failed") with
              | Ok fs' => check_empty fs' output_dir rest (failed ++ [d])
              | Raise e => (fs, Raise e)
              end
          | _ :: _ => check_empty fs output_dir rest failed
          end
      end
  end.

(** [Task.on_success] up to the logging of the outputs
    (lines 325-338).  Reading an attribute that is not set raises
    [AttributeError], which line 337 catches. *)
Definition on_success (fs : FS) (self : TaskState) : FS * result unit :=
  match output_dir self with
  | None => (fs, Ok ())
  | Some [] => (fs, Ok ())
  | Some (d0 :: l0) =>
      match output_dirs self with
      | None => (fs, Ok ())
      | Some dirs =>
          match check_empty fs (d0 :: l0) dirs [] with
          | (fs', Ok []) => (fs', Ok ())
          | (fs', Ok failed) =>
              (fs', Raise (EmptyDirectory
                 ("Target directory/directories " +:+ Str.join "," failed
                    +:+ " is/are empty. Expected contents")))
          | (fs', Raise e) => (fs', Raise e)
          end
      end
  end.

(** ** The class attribute accepted_components (lines 125, 156-160) *)

(** The classes of the program as far as the attribute
    [accepted_components] goes: the method resolution order of each
    class, the classes whose body assigns the attribute together with
    the identity of the list object assigned, and the list objects. *)
Record ClassWorld : Type := mkClassWorld {
  mro : gmap string (list string);
  own_accepted : gmap string nat;
  lists : gmap nat (list string);
}.

(** The class in whose dictionary the lookup [cls.accepted_components]
    finds the attribute: the first one along the resolution order. *)
Definition defining_class (w : ClassWorld) (cls : string) : option string :=
  m ← mro w !! cls;
  head (filter (λ c, is_Some (own_accepted w !! c)) m).

(** [cls.accepted_components], and [self.accepted_components] on an
    instance of [cls] that has no attribute of its own by that name:
    the list object found. *)
Definition accepted_ref (w : ClassWorld) (cls : string) : option nat :=
  c ← defining_class w cls; own_accepted w !! c.

(** The contents of that list. *)
Definition accepted_of (w : ClassWorld) (cls : string) : list string :=
  default [] (l ← accepted_ref w cls; lists w !! l).

(** Lines 159-160 for one child class: the list object is changed in
    place. *)
Definition accept_one (w : ClassWorld) (cls ChildClass : string) : result ClassWorld :=
  match accepted_ref w cls with
  | None =>
      Raise (AttributeError ("type object '" +:+ cls
                               +:+ "' has no attribute 'accepted_components'"))
  | Some l =>
      let items := default [] (lists w !! l) in
      if bool_decide (ChildClass ∈ items) then Ok w
      else Ok (mkClassWorld (mro w) (own_accepted w) (<[l := items ++ [ChildClass]]> (lists w)))
  end.

(** [WorkflowComponent.accept] (lines 156-160). *)
Fixpoint accept (w : ClassWorld) (cls : string) (ChildClasses : list string)
    : result ClassWorld :=
  match ChildClasses with
  | [] => Ok w
  | ChildClass :: rest =>
      w' ←! accept_one w cls ChildClass; accept w' cls rest
  end.


(** ** Groups that the walk passes over *)

(** [rejected self groups log log']: starting with the log [log], each
    group of [groups] ends, by completion or by [break], with an empty
    feed and without exception; [log'] is the log after the last. *)
Inductive rejected (self : Component)
    : list (Group Component) → list string → list string → Prop :=
  | rejected_nil inputlog : rejected self [] inputlog inputlog
  | rejected_cons g groups inputlog inputlog1 inputlog2 ex feeds :
      run_group setup_input self g inputlog = Ok (ex, feeds, inputlog1) →
      size feeds = 0 →
      rejected self groups inputlog1 inputlog2 →
      rejected self (g :: groups) inputlog inputlog2.

(** ** Items that the walk reaches *)





(** ** Plain names *)

(** No character of the string is a path separator or the null
    character. *)
Fixpoint no_separator (s : string) : bool :=
  match s with
  | "" => true
  | String c rest =>
      negb (Ascii.eqb c "/") && negb (Ascii.eqb c "000") && no_separator rest
  end.

(** A name that denotes an entry of the working directory and nothing
    else: not empty, not [.] or [..], without separator. *)
Definition plain_name (d : string) : bool :=
  negb (String.eqb d "") && negb (String.eqb d ".") && negb (String.eqb d "..")
  && no_separator d.

(** Every key of the store is a plain name. *)
Definition flat (fs : FS) : Prop :=
  ∀ p, is_Some (fs !! p) → plain_name p = true.

(** * Further parts of the module *)

(** ** InputFormat.__str__ and InputTask.out_default (lines 73-74, 105-109) *)

(** [InputFormat.__str__]: reading [self.basename] on an object that
    never set it raises [AttributeError]. *)
Definition InputFormat_str (self : InputFormat) : result string :=
  if valid self then
    match basename self, extension self with
    | Some b, Some e => Ok (b +:+ "." +:+ e)
    | _, _ => Raise (AttributeError "'InputFormat' object has no attribute 'basename'")
    end
  else Ok "".

(** The value of a parameter of a task that has to be a string. *)
Definition str_param (t : TaskObj) (name : string) : result string :=
  match list_find (λ kv, fst kv = name) (task_params t) with
  | Some (_, (_, VStr s)) => Ok s
  | Some _ => Raise (TypeError "can only concatenate str to str")
  | None => Raise (AttributeError ("object has no attribute '" +:+ name +:+ "'"))
  end.

(** The path of the target that [InputTask.out_default] returns:
    [self.basename + '.' + self.extension] (line 74). *)
Definition out_default_path (self : TaskObj) : result string :=
  b ←! str_param self "basename";
  e ←! str_param self "extension";
  Ok (b +:+ "." +:+ e).

(** ** Vocabulary for the resolver *)

Definition is_format_item (input : Item Component) : bool :=
  match input with
  | ItInputFormat _ => true
  | _ => false
  end.

(** Every item of the group is an [InputFormat]. *)
Definition format_only (g : Group Component) : bool :=
  match g with
  | GTuple items => forallb is_format_item items
  | GItem input => is_format_item input
  end.

(** Every binding of the feed is a single slot under the key [fid]. *)
Definition only_single_at (fid : string) (feeds : Feed) : Prop :=
  ∀ k v, feeds !! k = Some v → k = fid ∧ ∃ s, v = Single s.

(** ** Vocabulary for the output directories *)

(** [setup_output_dir] called for each directory of the list in turn. *)
Fixpoint setup_output_dirs (fs : FS) (self : TaskState) (ds : list string)
    : result (FS * TaskState) :=
  match ds with
  | [] => Ok (fs, self)
  | d :: rest =>
      st ←! setup_output_dir fs self d;
      setup_output_dirs st.1 st.2 rest
  end.

(** ** Vocabulary for accept *)

(** The list after the loop of lines 158-160 has gone through
    [ChildClasses]: each class not yet in the list is appended. *)
Definition add_new (items ChildClasses : list string) : list string :=
  fold_left (λ items c, if bool_decide (c ∈ items) then items else items ++ [c])
    ChildClasses items.

(** ** Exceptions that are not classes of the module *)

(** An exception of the module, or a built-in one given by the name of
    its class and its message. *)
Inductive pyexn : Type :=
  | Engine (e : exn)
  | Builtin (cls msg : string).

Inductive outcome (A : Type) : Type :=
  | Return (a : A)
  | Throw (e : pyexn).
Arguments Return {A} a.
Arguments Throw {A} e.

Definition of_result {A : Type} (r : result A) : outcome A :=
  match r with
  | Ok a => Return a
  | Raise e => Throw (Engine e)
  end.

(** ** The registries (lines 19-32, 477-481) *)

(** A class object: its identity and its [__name__].  Two class
    objects are the same object when they are equal. *)
Record ClassObj : Type := mkClassObj {
  obj_id : nat;
  obj_name : string;
}.

Global Instance ClassObj_eq_dec : EqDecision ClassObj.
Proof. solve_decision. Defined.

(** [registercomponent] (lines 28-32) on the list [COMPONENTS]; the
    assertion of line 29 is the type of [Class]. *)
Definition registercomponent (COMPONENTS : list ClassObj) (Class : ClassObj)
    : list ClassObj :=
  if bool_decide (Class ∈ COMPONENTS) then COMPONENTS else COMPONENTS ++ [Class].

(** [registerformat] (lines 22-26) on the list [INPUTFORMATS]. *)
Definition registerformat (INPUTFORMATS : list ClassObj) (Class : ClassObj)
    : list ClassObj :=
  if bool_decide (Class ∈ INPUTFORMATS) then INPUTFORMATS else INPUTFORMATS ++ [Class].

(** [getcomponentclass] (lines 477-481). *)
Fixpoint getcomponentclass (COMPONENTS : list ClassObj) (classname : string)
    : outcome ClassObj :=
  match COMPONENTS with
  | [] => Throw (Builtin "Exception" ("No such component: " +:+ classname))
  | Class :: rest =>
      if bool_decide (obj_name Class = classname) then Return Class
      else getcomponentclass rest classname
  end.

(** ** inherit_parameters (lines 162-169 and 429-436) *)

(** An attribute of a class as the loop looks at it: a
    [luigi.Parameter] object, given by its identity, or anything
    else. *)
Inductive ClassAttr : Type :=
  | AParam (p : nat)
  | AOther.

(** The names skipped at lines 166 and 433. *)
Definition reserved (key : string) : bool :=
  bool_decide (key ∈ ["instance_name"; "workflow_task"]).

(** The body of the inner loop: [cls] is the namespace in which
    [hasattr(cls, key)] looks and into which [setattr] writes. *)
Definition inherit_attr (cls : gmap string ClassAttr) (entry : string * ClassAttr)
    : gmap string ClassAttr :=
  let '(key, attr) := entry in
  if reserved key then cls
  else
    match attr with
    | AParam _ =>
        match cls !! key with
        | Some _ => cls
        | None => <[key := attr]> cls
        end
    | AOther => cls
    end.

(** [inherit_parameters]; each child class is given by the names of
    [dir(ChildClass)] with their attributes. *)
Definition inherit_parameters (cls : gmap string ClassAttr)
    (ChildClasses : list (list (string * ClassAttr))) : gmap string ClassAttr :=
  fold_left (λ cls ChildClass, fold_left inherit_attr ChildClass cls) ChildClasses cls.

(** The first parameter of that name that the entries list. *)
Fixpoint first_parameter (key : string) (entries : list (string * ClassAttr))
    : option ClassAttr :=
  match entries with
  | [] => None
  | (k, AParam p) :: rest =>
      if bool_decide (k = key) then Some (AParam p) else first_parameter key rest
  | (_, AOther) :: rest => first_parameter key rest
  end.

(** ** WorkflowComponent.new_task (lines 285-296) *)

(** The truth value of a Python value. *)
Definition truthy (v : PyVal) : bool :=
  match v with
  | VStr s => negb (String.eqb s "")
  | VBool b => b
  | VInt z => negb (Z.eqb z 0)
  | VNone => false
  end.

(** [repr] of a value that is not a string. *)
Definition repr_nonstr (v : PyVal) : string :=
  match v with
  | VBool true => "True"
  | VBool false => "False"
  | VInt z => NilZero.string_of_int (Z.to_int z)
  | VNone => "None"
  | VStr s => s
  end.

(** The body of the loop of lines 290-294; [self] holds the attributes
    of the workflow. *)
Definition autopass_attr (self : gmap string PyVal) (kwargs : gmap string PyVal)
    (entry : string * bool) : gmap string PyVal :=
  let '(key, is_parameter) := entry in
  if reserved key then kwargs
  else if is_parameter then
    match kwargs !! key with
    | Some _ => kwargs
    | None =>
        match self !! key with
        | Some v => <[key := v]> kwargs
        | None => kwargs
        end
    end
  else kwargs.

(** The keyword arguments that [new_task] hands to the inherited
    [new_task] (lines 287-296). *)
Definition new_task_kwargs (self : gmap string PyVal) (instance_name : PyVal)
    (cls : ClassInfo) (kwargs : gmap string PyVal) : result (gmap string PyVal) :=
  match instance_name with
  | VStr _ =>
      match kwargs !! "autopass" with
      | Some v =>
          if truthy v
          then Ok (delete "autopass" (fold_left (autopass_attr self) (cls_dir cls) kwargs))
          else Ok kwargs
      | None => Ok kwargs
      end
  | _ =>
      Raise (TypeError ("First parameter to new_task must be an instance_name (str), got "
                          +:+ repr_nonstr instance_name))
  end.

(** ** WorkflowComponent.setup with autosetup (lines 171-201) *)

(** An element of the configuration that [autosetup()] returns:
    whether it is a class derived from [Task], what [str(type(x))] is,
    and for a class its [__name__] and the names of [dir(x)], each with
    whether the attribute is a [luigi.Parameter]. *)
Record TaskClass : Type := mkTaskClass {
  tc_name : string;
  tc_is_task : bool;
  tc_type : string;
  tc_dir : list (string * bool);
}.

(** What [autosetup()] returns: one object, or a list or tuple. *)
Inductive Configuration : Type :=
  | ConfOne (c : TaskClass)
  | ConfSeq (cs : list TaskClass).

Definition candidates (configuration : Configuration) : list TaskClass :=
  match configuration with
  | ConfOne c => [c]
  | ConfSeq cs => cs
  end.

(** The task that [setup] returns: the new task and the input slot
    that line 190 has set on it. *)
Record WiredTask : Type := mkWiredTask {
  wired_task : TaskObj;
  wired_slot : string;
  wired_input : FeedVal;
}.

(** The attributes of a component instance that hold values: its two
    own parameters and the others. *)
Definition component_attrs (self : Component) : gmap string PyVal :=
  <["startcomponent" := VStr (startcomponent self)]>
    (<["inputslot" := VStr (inputslot self)]> (attrs self)).

(** [hasattr(TaskClass, name)] *)
Definition tc_hasattr (c : TaskClass) (name : string) : bool :=
  bool_decide (name ∈ (tc_dir c).*1).

(** The loop of lines 185-188. *)
Definition passparameters_of (self : gmap string PyVal) (c : TaskClass)
    : gmap string PyVal :=
  fold_left
    (λ passparameters entry,
       let '(key, is_parameter) := entry in
       if negb (reserved key) && is_parameter then
         match self !! key with
         | Some v => <[key := v]> passparameters
         | None => passparameters
         end
       else passparameters)
    (tc_dir c) ∅.

(** Lines 191-194: does [dir(TaskClass)] list a name that starts with
    [out_]? *)
Definition has_output_slot (c : TaskClass) : bool :=
  existsb (λ key, bool_decide (Str.slice_to key 4 = "out_")) (tc_dir c).*1.

(** Lines 184-198 for the class that has the input slot. *)
Definition autosetup_task (self workflow : Component) (input_type : string)
    (input_slot : FeedVal) (c : TaskClass) : outcome WiredTask :=
  match new_task_kwargs (component_attrs workflow) (VStr (tc_name c))
          (mkClassInfo (tc_name c) (tc_dir c))
          (passparameters_of (component_attrs self) c) with
  | Raise e => Throw (Engine e)
  | Ok kwargs =>
      if has_output_slot c then
        Return (mkWiredTask
                  (mkTask (tc_name c) (tc_name c) (map_to_list kwargs) (tc_dir c).*1)
                  ("in_" +:+ input_type) input_slot)
      else Throw (Engine (AutoSetupError ("No output slots found on " +:+ tc_name c)))
  end.

(** The loop of lines 180-199; [last] is the value of the loop
    variable once the loop has run, which line 199 reads. *)
Fixpoint autosetup_loop (self workflow : Component) (input_type : string)
    (input_slot : FeedVal) (configuration : list TaskClass) (last : option TaskClass)
    : outcome WiredTask :=
  match configuration with
  | [] =>
      match last with
      | Some c =>
          Throw (Engine (AutoSetupError
            ("No matching input slots found for the specified task (looking for "
               +:+ input_type +:+ " on " +:+ tc_name c +:+ ")")))
      | None =>
          Throw (Builtin "UnboundLocalError"
                   "local variable 'TaskClass' referenced before assignment")
      end
  | c :: rest =>
      if negb (tc_is_task c) then
        Throw (Engine (AutoSetupError ("AutoSetup expected a Task class, got " +:+ tc_type c)))
      else if tc_hasattr c ("in_" +:+ input_type) then
        autosetup_task self workflow input_type input_slot c
      else autosetup_loop self workflow input_type input_slot rest (Some c)
  end.

(** [WorkflowComponent.setup(workflow, input_feeds)] as the class
    defines it; [autosetup] is [None] for a component without the
    method.  The feed passed in is not used: line 173 resolves
    again. *)
Definition setup_default (self workflow : Component) (autosetup : option Configuration)
    : outcome WiredTask :=
  match autosetup with
  | None =>
      Throw (Builtin "NotImplementedError"
               ("Override the setup() or autosetup() method for your workflow component "
                  +:+ class_name self))
  | Some configuration =>
      match setup_input self with
      | Raise e => Throw (Engine e)
      | Ok input_feeds =>
          if bool_decide (1 < size input_feeds) then
            Throw (Engine (AutoSetupError
                     "Autosetup only works for single input/output tasks for now"))
          else
            match map_to_list input_feeds with
            | (input_type, input_slot) :: _ =>
                autosetup_loop self workflow input_type input_slot
                  (candidates configuration) None
            | [] => Throw (Builtin "IndexError" "list index out of range")
            end
      end
  end.

(** ** Task.getcmd (lines 348-402) *)

(** [s.startswith('__')] *)
Definition starts_dunder (s : string) : bool :=
  match s with
  | String "_" (String "_" _) => true
  | _ => false
  end.

(** [s.find('__')]: the index of the first occurrence, [None] for
    Python's [-1]. *)
Fixpoint find_dunder (s : string) : option nat :=
  match s with
  | "" => None
  | String c rest =>
      if Ascii.eqb c "_" && (match rest with String "_" _ => true | _ => false end)
      then Some 0
      else S <$> find_dunder rest
  end.

(** [s.replace('__', '-')]: the occurrences from left to right, without
    overlap. *)
Fixpoint replace_dunder (s : string) : string :=
  match s with
  | "" => ""
  | String c rest =>
      match rest with
      | String c' rest' =>
          if Ascii.eqb c "_" && Ascii.eqb c' "_"
          then String "-" (replace_dunder rest')
          else String c (replace_dunder rest)
      | "" => String c ""
      end
  end.

(** [s[-4:]] *)
Definition last4 (s : string) : string := Str.drop (Str.len s - 4) s.

(** The keyword arguments in the order in which they were passed.  The
    keys of a dictionary are distinct; a lookup takes the first
    entry. *)
Fixpoint kw_get (kwargs : list (string * PyVal)) (name : string) : option PyVal :=
  match kwargs with
  | [] => None
  | (key, value) :: rest =>
      if bool_decide (key = name) then Some value else kw_get rest name
  end.

(** [name in kwargs and kwargs[name]] *)
Definition kw_flag (kwargs : list (string * PyVal)) (name : string) : bool :=
  match kw_get kwargs name with
  | Some v => truthy v
  | None => false
  end.

Definition obind {A B : Type} (o : outcome A) (k : A → outcome B) : outcome B :=
  match o with
  | Return a => k a
  | Throw e => Throw e
  end.

Section Getcmd.

(** [shellsafe] of [luiginlp.util], which the module imports, and the
    built-in [str]. *)
Variable shellsafe : PyVal → outcome string.
Variable pystr : PyVal → string.

(** The body of the loop of lines 357-382 for one keyword argument:
    [None] when the body ends with [continue], otherwise the text
    appended to [opts]. *)
Definition option_text (kwargs : list (string * PyVal)) (key : string) (value : PyVal)
    : outcome (option string) :=
  match value with
  | VNone | VBool false => Return None
  | _ =>
      if starts_dunder key then Return None
      else
        let key := match find_dunder key with
                   | Some (S _) => replace_dunder key
                   | _ => key
                   end in
        match key with
        | "" => Throw (Builtin "IndexError" "string index out of range")
        | String c rest =>
            let key := if Ascii.eqb c "_" then rest else key in
            let delimiter := if kw_flag kwargs "__nospace" then "" else " " in
            let '(key, delimiter) :=
              if bool_decide (Str.len key = 1) || kw_flag kwargs "__singlehyphen"
              then ("-" +:+ key, delimiter)
              else ("--" +:+ key,
                    if kw_flag kwargs "__assignop" then "=" else delimiter) in
            match value with
            | VBool true => Return (Some key)
            | VStr _ => obind (shellsafe value) (λ s, Return (Some (key +:+ delimiter +:+ s)))
            | _ => Return (Some (key +:+ delimiter +:+ pystr value))
            end
        end
  end.

(** The loop of lines 357-382 over the entries, [kwargs] being the
    whole dictionary. *)
Fixpoint collect_opts (kwargs entries : list (string * PyVal)) : outcome (list string) :=
  match entries with
  | [] => Return []
  | (key, value) :: rest =>
      obind (option_text kwargs key value) (λ o,
      obind (collect_opts kwargs rest) (λ opts,
      Return (match o with Some opt => opt :: opts | None => opts end)))
  end.

(** [cmd += ' ' + ' '.join(l)] when [l] is not empty. *)
Definition add_words (cmd : string) (l : list string) : string :=
  match l with
  | [] => cmd
  | _ :: _ => cmd +:+ " " +:+ Str.join " " l
  end.

(** Lines 395-400: a redirection when the key is given. *)
Definition add_redirect (kwargs : list (string * PyVal)) (name sign : string)
    (cmd : string) : outcome string :=
  match kw_get kwargs name with
  | Some v => obind (shellsafe v) (λ s, Return (cmd +:+ sign +:+ s))
  | None => Return cmd
  end.

(** [Task.getcmd( *args, **kwargs)]; [cls] is the name of the class of
    the task and [executable] its attribute of that name, if any. *)
Definition getcmd (cls : string) (executable : option string) (args : list string)
    (kwargs : list (string * PyVal)) : outcome string :=
  match executable with
  | None => Throw (Builtin "Exception" ("No executable defined for Task " +:+ cls))
  | Some executable =>
      let cmd := if bool_decide (last4 executable = ".jar")
                 then "java -jar " +:+ executable else executable in
      obind (collect_opts kwargs kwargs) (λ opts,
      let cmd := if kw_flag kwargs "__options_last"
                 then add_words (add_words cmd args) opts
                 else add_words (add_words cmd opts) args in
      obind (add_redirect kwargs "__stdin_from" " < " cmd) (λ cmd,
      obind (add_redirect kwargs "__stdout_to" " > " cmd) (λ cmd,
      add_redirect kwargs "__stderr_to" " 2> " cmd)))
  end.

End Getcmd.

(** ** WorkflowComponent.workflow (lines 274-283) *)

(** Line 281: a single task is valid; for a list or tuple the test
    [isinstance(output_task, Task)] is made on the sequence itself,
    once for each of its elements. *)
Definition valid_output (output_task : SetupRet) : bool :=
  match output_task with
  | RetTask _ => true
  | RetSeq ts => forallb (λ _, false) ts
  end.

(** [WorkflowComponent.workflow]; [type_str] is [str(type(output_task))]
    for the message of line 282.  Exceptions of the resolution and of
    [setup] are logged and raised again. *)
Definition workflow (self : Component) (type_str : string) : outcome SetupRet :=
  match setup_chain self with
  | Raise e => Throw (Engine e)
  | Ok output_task =>
      if valid_output output_task then Return output_task
      else
        Throw (Builtin "ValueError"
                 ("Workflow setup() did not return a valid last task (or sequence of tasks), got "
                    +:+ type_str))
  end.

(** ** Parallel.workflow (lines 524-543) *)

(** [s.split(',')] *)
Fixpoint split_comma (s : string) : list string :=
  match s with
  | "" => [""]
  | String c rest =>
      if Ascii.eqb c ","
      then "" :: split_comma rest
      else
        match split_comma rest with
        | piece :: pieces => String c piece :: pieces
        | [] => [String c ""]
        end
  end.

(** Line 532: every single quote of the string replaced by a double
    quote (character 34). *)
Fixpoint double_quotes (s : string) : string :=
  match s with
  | "" => ""
  | String c rest =>
      String (if Ascii.eqb c "'" then "034"%char else c) (double_quotes rest)
  end.

(** The parameter [passparameters]: a string, a plain dictionary, a
    [PassParameters], or another object given by its [repr]. *)
Inductive PassArg : Type :=
  | PassStr (s : string)
  | PassDict (d : gmap string PyVal)
  | PassParameters (d : gmap string PyVal)
  | PassOther (repr : string).

(** The parameter [inputfiles]: a string or a list of strings. *)
Inductive InputFiles : Type :=
  | FilesStr (s : string)
  | FilesList (l : list string).

Section Parallel.

(** [json.loads], and [self.new_task]: [Parallel] derives from
    [sciluigi.WorkflowTask], so this is the method of that library,
    given here by what a call with an instance name, a class and
    keyword arguments does: it returns a task or raises (as it does for
    a keyword that clashes with one of its own parameters). *)
Context {T : Type}.
Variable json_loads : string → outcome (gmap string PyVal).
Variable new_task : string → ClassObj → gmap string PyVal → outcome T.

(** Lines 531-536. *)
Definition normalise_passparameters (passparameters : PassArg)
    : outcome (gmap string PyVal) :=
  match passparameters with
  | PassStr s => json_loads (double_quotes s)
  | PassDict d => Return d
  | PassParameters d => Return d
  | PassOther repr =>
      Throw (Builtin "TypeError"
               ("Keywork argument passparameters must be instance of PassParameters, got "
                  +:+ repr))
  end.

(** Lines 539-540. *)
Definition normalise_inputfiles (inputfiles : InputFiles) : list string :=
  match inputfiles with
  | FilesStr s => split_comma s
  | FilesList l => l
  end.

(** Line 542 for one input file: the call passes [inputfile] by
    keyword next to the unpacked dictionary, which is a [TypeError]
    when the dictionary has that key; otherwise [new_task] is called
    with the instance name [self.component], the class and the
    keyword arguments. *)
Definition parallel_task (component : string) (ComponentClass : ClassObj)
    (passparameters : gmap string PyVal) (inputfile : string) : outcome T :=
  match passparameters !! "inputfile" with
  | Some _ =>
      Throw (Builtin "TypeError" "got multiple values for keyword argument 'inputfile'")
  | None =>
      new_task component ComponentClass (<["inputfile" := VStr inputfile]> passparameters)
  end.

(** The loop of lines 541-542. *)
Fixpoint parallel_tasks (component : string) (ComponentClass : ClassObj)
    (passparameters : gmap string PyVal) (inputfiles : list string)
    : outcome (list T) :=
  match inputfiles with
  | [] => Return []
  | inputfile :: rest =>
      obind (parallel_task component ComponentClass passparameters inputfile) (λ t,
      obind (parallel_tasks component ComponentClass passparameters rest) (λ ts,
      Return (t :: ts)))
  end.

(** [Parallel.workflow]; [COMPONENTS] is the registry. *)
Definition Parallel_workflow (COMPONENTS : list ClassObj)
    (inputfiles : InputFiles) (component : string) (passparameters : PassArg)
    : outcome (list T) :=
  obind (normalise_passparameters passparameters) (λ passparameters,
  obind (getcomponentclass COMPONENTS component) (λ ComponentClass,
  parallel_tasks component ComponentClass passparameters
    (normalise_inputfiles inputfiles))).

End Parallel.

(** The number of commas of a string. *)
Fixpoint count_commas (s : string) : nat :=
  match s with
  | "" => 0
  | String c rest => (if Ascii.eqb c "," then 1 else 0) + count_commas rest
  end.

(** ** Concrete inputs *)

Module Ex.

(** A store holding the single file [doc.txt]. *)
Definition fs_doc : FS := {[ "doc.txt" := File ]}.

(** A workflow whose [inputfile] is [doc.txt]. *)
Definition wattrs_doc : gmap string PyVal := {[ "inputfile" := VStr "doc.txt" ]}.

(** [InputFormat(self, fid, ext)] in the [accepts()] of class [cls]. *)
Definition fmt (cls fid : string) (ext : ExtArg) : result InputFormat :=
  InputFormat_init fs_doc cls wattrs_doc fid ext "inputfile" false false.

(** A [setup()] that returns one task with the given attributes. *)
Definition one_task (name : string) (attrs : list string) : Feed → result SetupRet :=
  λ _, Ok (RetTask (mkTask name name [] attrs)).

(** The formats that [fmt] yields on [doc.txt]: a match, and no match. *)
Definition valid_fmt (fid : string) : InputFormat :=
  mkInputFormat true fid false (Some "doc") (Some "txt").
Definition invalid_fmt (fid : string) : InputFormat :=
  mkInputFormat false fid false None None.

(** The slot that a valid format of the given id binds. *)
Definition source_slot (fid : string) : Slot :=
  BoundMethod
    (InputFormat_task (valid_fmt fid))
    "out_default".

(** [accepts()] returns
    [((InputFormat(self,'txt','txt'), InputFormat(self,'conll','conll')),
      InputFormat(self,'text',('text','.txt')))]. *)
Definition parse : Component :=
  mkComponent "Parse" "" "" wattrs_doc
    (a ←! fmt "Parse" "txt" (ExtStr "txt");
     b ←! fmt "Parse" "conll" (ExtStr "conll");
     c ←! fmt "Parse" "text" (ExtSeq ["text"; ".txt"]);
     Ok (AccSeq [GTuple [ItInputFormat a; ItInputFormat b]; GItem (ItInputFormat c)]))
    [] (one_task "Parser" ["in_txt"; "out_parsed"]).

(** The two alternatives that [parse] declares, and its log before the
    first of them. *)
Definition g_pair : Group Component :=
  GTuple [ItInputFormat (valid_fmt "txt"); ItInputFormat (invalid_fmt "conll")].
Definition g_text : Group Component := GItem (ItInputFormat (valid_fmt "text")).
Definition log0 : list string := ["inputfile=doc.txt"].

(** [accepts()] returns [InputFormat(self,'tok','tok')]. *)
Definition tokenize : Component :=
  mkComponent "Tokenize" "" "" wattrs_doc
    (a ←! fmt "Tokenize" "tok" (ExtStr "tok"); Ok (AccOne (ItInputFormat a)))
    [] (one_task "Tokenizer" ["in_tok"; "out_tok"]).

(** [accepts()] returns
    [((InputFormat(self,'txt','txt'), InputComponent(self, Tokenize)),
      InputFormat(self,'text','txt'))]. *)
Definition parse_sub : Component :=
  mkComponent "Parse" "" "" wattrs_doc
    (a ←! fmt "Parse" "txt" (ExtStr "txt");
     c ←! fmt "Parse" "text" (ExtStr "txt");
     Ok (AccSeq [GTuple [ItInputFormat a; ItInputComponent tokenize];
                 GItem (ItInputFormat c)]))
    [] (one_task "Parser" ["in_txt"; "out_parsed"]).

(** The first alternative of [parse_sub]. *)
Definition g_sub : Group Component :=
  GTuple [ItInputFormat (valid_fmt "txt"); ItInputComponent tokenize].

(** [accepts()] returns
    [((InputFormat(self,'txt','txt'), InputComponent(self, Tokenize)),)]. *)
Definition parse_sub_only : Component :=
  mkComponent "Parse" "" "" wattrs_doc
    (a ←! fmt "Parse" "txt" (ExtStr "txt");
     Ok (AccSeq [GTuple [ItInputFormat a; ItInputComponent tokenize]]))
    [] (one_task "Parser" ["in_txt"; "out_parsed"]).

(** Two components whose task has an output slot [out_X]. *)
Definition producer (cls : string) : Component :=
  mkComponent cls "" "" wattrs_doc
    (a ←! fmt cls "txt" (ExtStr "txt"); Ok (AccOne (ItInputFormat a)))
    [] (one_task (cls +:+ "Task") ["in_txt"; "out_X"; "run"]).

(** The task that [producer cls] sets up. *)
Definition producer_task (cls : string) : TaskObj :=
  mkTask (cls +:+ "Task") (cls +:+ "Task") [] ["in_txt"; "out_X"; "run"].

(** [accepts()] returns
    [((InputComponent(self, A), InputFormat(self,'X','txt')),)]. *)
Definition mixed : Component :=
  mkComponent "Merge" "" "" wattrs_doc
    (x ←! fmt "Merge" "X" (ExtStr "txt");
     Ok (AccSeq [GTuple [ItInputComponent (producer "A"); ItInputFormat x]]))
    [] (one_task "Merger" ["in_X"; "out_merged"]).

(** [accepts()] returns [((InputComponent(self, A), InputComponent(self, B)),)]. *)
Definition siblings : Component :=
  mkComponent "Merge" "" "" wattrs_doc
    (Ok (AccSeq [GTuple [ItInputComponent (producer "A"); ItInputComponent (producer "B")]]))
    [] (one_task "Merger" ["in_X"; "out_merged"]).



(** Classes [A] and [B] derived from [WorkflowComponent], whose body
    assigns the empty list (object 0) to [accepted_components]. *)
Definition world : ClassWorld :=
  mkClassWorld
    {[ "A" := ["A"; "WorkflowComponent"];
       "B" := ["B"; "WorkflowComponent"];
       "WorkflowComponent" := ["WorkflowComponent"] ]}
    {[ "WorkflowComponent" := 0 ]}
    {[ 0 := [] ]}.

End Ex.

Module Ex2.
Import Ex.

(** [accepts()] returns [InputFormat(self,'tok','tok')], which does not
    match [doc.txt]; the class [Tokenize] has been injected with
    [accept]. *)
Definition with_injected : Component :=
  mkComponent "Parse" "" "" wattrs_doc
    (a ←! fmt "Parse" "tok" (ExtStr "tok"); Ok (AccOne (ItInputFormat a)))
    [ItClass "Tokenize" None] (one_task "Parser" ["in_tok"; "out_parsed"]).

(** [parse] started with [startcomponent = 'Tokenize']. *)
Definition parse_gated : Component :=
  mkComponent "Parse" "Tokenize" "" wattrs_doc
    (accepts parse) [] (one_task "Parser" ["in_txt"; "out_parsed"]).

(** [parse] started with [inputslot = 'text']. *)
Definition parse_slot : Component :=
  mkComponent "Parse" "" "text" wattrs_doc
    (accepts parse) [] (one_task "Parser" ["in_txt"; "out_parsed"]).

(** As [world], with a class [Own] that assigns its own list (object 1)
    to [accepted_components]. *)
Definition world_own : ClassWorld :=
  mkClassWorld
    {[ "A" := ["A"; "WorkflowComponent"];
       "Own" := ["Own"; "WorkflowComponent"];
       "WorkflowComponent" := ["WorkflowComponent"] ]}
    {[ "WorkflowComponent" := 0; "Own" := 1 ]}
    {[ 0 := []; 1 := ["D"] ]}.

(** Two task classes: one that takes [tok], one that takes [txt]. *)
Definition frog : TaskClass :=
  mkTaskClass "Frog" true "<class 'sciluigi.task.MetaTask'>"
    [("in_tok", false); ("out_folia", false); ("skip", true)].
Definition ucto : TaskClass :=
  mkTaskClass "Ucto" true "<class 'sciluigi.task.MetaTask'>"
    [("in_txt", false); ("language", true); ("out_tok", false)].

(** Stand-ins for [shellsafe] and [str]: quoting with single quotes,
    and the text of a value that is not a string. *)
Definition quote (v : PyVal) : outcome string :=
  match v with
  | VStr s => Return ("'" +:+ s +:+ "'")
  | _ => Throw (Builtin "TypeError" "object of this type has no len()")
  end.

Definition text (v : PyVal) : string := repr_nonstr v.

(** A component whose [setup()] returns a list of two tasks. *)
Definition two_tasks : Component :=
  mkComponent "Split" "" "" wattrs_doc
    (a ←! fmt "Split" "txt" (ExtStr "txt"); Ok (AccOne (ItInputFormat a)))
    []
    (λ _, Ok (RetSeq [Some (producer_task "A"); Some (producer_task "B")])).

(** A [json.loads] that rejects every string, and a [new_task] that
    returns the task given by its instance name, its class and its
    keyword arguments, and raises on a keyword [instance_name]. *)
Definition no_json (s : string) : outcome (gmap string PyVal) :=
  Throw (Builtin "JSONDecodeError" "Expecting value").
Definition make_task (instance_name : string) (cls : ClassObj)
    (kwargs : gmap string PyVal) : outcome (string * ClassObj * gmap string PyVal) :=
  match kwargs !! "instance_name" with
  | Some _ =>
      Throw (Builtin "TypeError" "new_task() got multiple values for argument 'instance_name'")
  | None => Return (instance_name, cls, kwargs)
  end.

(** [accepts()] returns
    [((InputFormat(self,'X','txt'), InputComponent(self, A)),)]: the
    items of [mixed] in the other order. *)
Definition mixed_rev : Component :=
  mkComponent "Merge" "" "" wattrs_doc
    (x ←! fmt "Merge" "X" (ExtStr "txt");
     Ok (AccSeq [GTuple [ItInputFormat x; ItInputComponent (producer "A")]]))
    [] (one_task "Merger" ["in_X"; "out_merged"]).




End Ex2.
(** * String facts *)

Module StrFacts.
Import Str.

Lemma app_cons c s t : String c s +:+ t = String c (s +:+ t).
Proof. reflexivity. Qed.

Lemma app_nil_l s : "" +:+ s = s.
Proof. reflexivity. Qed.

Lemma app_nil_r s : s +:+ "" = s.
Proof. induction s as [|c s IH]; [done|]. by rewrite app_cons, IH. Qed.

Lemma app_assoc s t u : (s +:+ t) +:+ u = s +:+ t +:+ u.
Proof. induction s as [|c s IH]; [done|]. by rewrite !app_cons, IH. Qed.

Lemma len_app s t : len (s +:+ t) = len s + len t.
Proof. induction s as [|c s IH]; [done|]. rewrite app_cons. simpl. by rewrite IH. Qed.

Lemma take_app s t : take (len s) (s +:+ t) = s.
Proof. induction s as [|c s IH]; [by destruct t|]. rewrite app_cons. simpl. by rewrite IH. Qed.

Lemma drop_app s t : drop (len s) (s +:+ t) = t.
Proof. induction s as [|c s IH]; [by destruct t|]. by rewrite app_cons. Qed.

Lemma take_drop n s : take n s +:+ drop n s = s.
Proof.
  revert s. induction n as [|n IH]; intros [|c s]; try done.
  simpl. by rewrite app_cons, IH.
Qed.

Lemma len_drop n s : len (drop n s) = len s - n.
Proof. revert s. induction n as [|n IH]; intros [|c s]; simpl; auto. Qed.



(** [endswith] is the suffix relation. *)
Lemma endswith_spec s suffix :
  endswith s suffix = true ↔ ∃ b, s = b +:+ suffix.
Proof.
  unfold endswith. rewrite bool_decide_eq_true. split.
  - intros H. exists (take (len s - len suffix) s).
    rewrite <- (take_drop (len s - len suffix) s) at 1. by rewrite H.
  - intros [b ->]. rewrite len_app.
    replace (len b + len suffix - len suffix) with (len b) by lia.
    apply drop_app.
Qed.

Lemma slice_to_neg_app b suffix :
  slice_to_neg (b +:+ suffix) (len suffix) = b.
Proof.
  unfold slice_to_neg. rewrite len_app.
  replace (len b + len suffix - len suffix) with (len b) by lia.
  apply take_app.
Qed.

End StrFacts.

(** * The chain of line 212 *)

Lemma try_each_app {X} (run : X → list string → result (LoopExit * Feed * list string))
    (xs ys : list X) (inputlog : list string) :
  try_each run (xs ++ ys) inputlog =
    match try_each run xs inputlog with
    | Ok (inr inputlog') => try_each run ys inputlog'
    | r => r
    end.
Proof.
  revert inputlog. induction xs as [|x xs IH]; intros inputlog; simpl; [done|].
  destruct (run x inputlog) as [[[ex feeds] log']|e]; [|done].
  case_bool_decide; [done|]. apply IH.
Qed.

Lemma try_each_map {X Y} (g : X → Y)
    (run : Y → list string → result (LoopExit * Feed * list string))
    (xs : list X) (inputlog : list string) :
  try_each run (map g xs) inputlog = try_each (λ x, run (g x)) xs inputlog.
Proof.
  revert inputlog. induction xs as [|x xs IH]; intros inputlog; simpl; [done|].
  destruct (run (g x) inputlog) as [[[ex feeds] log']|e]; [|done].
  case_bool_decide; [done|]. apply IH.
Qed.

(** [setup_input] walks the chain of line 212 as one sequence. *)
Lemma setup_input_eq (self : Component) :
  setup_input self =
    (accepted ←! accepts self;
     inputlog ←! initial_log self;
     resolve self (chain accepted (accepted_components self)) inputlog).
Proof.
  destruct self as [cn sc isl at_ [accepted|e] inj su]; [|done].
  set (self := mkComponent cn sc isl at_ (Ok accepted) inj su).
  change (accepts self) with (Ok accepted : result (AcceptsRet Component)).
  change (accepted_components self) with inj.
  unfold bind at 1.
  assert (setup_input self =
    match initial_log self with
    | Raise e => Raise e
    | Ok inputlog =>
        match try_each (run_group setup_input self) (groups_of accepted) inputlog with
        | Raise e => Raise e
        | Ok (inl input_feeds) => Ok input_feeds
        | Ok (inr inputlog') =>
            match try_each (run_group setup_input self) (map GItem inj) inputlog' with
            | Raise e => Raise e
            | Ok (inl input_feeds) => Ok input_feeds
            | Ok (inr inputlog'') => Raise (no_entry_point inputlog'')
            end
        end
    end) as ->.
  { subst self. destruct accepted; cbn [setup_input groups_of];
      destruct (initial_log _); try done;
      destruct (try_each _ _ _) as [[?|?]|?]; try done;
      by rewrite try_each_map. }
  destruct (initial_log self) as [inputlog|e]; [|done].
  unfold bind, resolve, try_groups, chain. rewrite try_each_app.
  by destruct (try_each _ (groups_of accepted) inputlog) as [[?|?]|?].
Qed.

(** * Properties of the format matcher *)

Lemma strip_dot_nonempty (e : string) : e ≠ "" → strip_dot e = Ok (ext_name e).
Proof. by destruct e. Qed.

Lemma endswith_has_suffix (p e : string) :
  Str.endswith p ("." +:+ e) = true ↔ has_suffix p e.
Proof. apply StrFacts.endswith_spec. Qed.

Lemma len_dot_ext (e : string) : Str.len ("." +:+ e) = Str.len e + 1.
Proof. rewrite StrFacts.len_app. simpl. lia. Qed.

(** On a path with a matching suffix the checked artifact is the path
    itself. *)
Lemma matched_basename (p e : string) :
  has_suffix p e →
  Str.slice_to_neg p (Str.len e + 1) +:+ "." +:+ e = p.
Proof.
  intros [b ->]. rewrite <- len_dot_ext. by rewrite StrFacts.slice_to_neg_app.
Qed.

(** Without [force]: no declared extension matches. *)
Lemma match_extensions_none fs cls fid p exts :
  Forall (λ e, e ≠ "") exts →
  (∀ e, e ∈ exts → ¬ has_suffix p (ext_name e)) →
  match_extensions fs cls fid (VStr p) false exts = Ok None.
Proof.
  induction 1 as [|e exts He _ IH]; intros Hno; simpl; [done|].
  rewrite (strip_dot_nonempty e He). simpl.
  destruct (Str.endswith p ("." +:+ ext_name e)) eqn:Hend.
  - apply endswith_has_suffix in Hend. exfalso. eapply Hno; [|done]. by left.
  - simpl. apply IH. intros e' He'. apply Hno. by right.
Qed.

(** Without [force]: some declared extension matches. *)
Lemma match_extensions_some fs cls fid p exts :
  Forall (λ e, e ≠ "") exts →
  (∃ e, e ∈ exts ∧ has_suffix p (ext_name e)) →
  ∃ e, e ∈ exts ∧ has_suffix p (ext_name e) ∧
    let b := Str.slice_to_neg p (Str.len (ext_name e) + 1) in
    match_extensions fs cls fid (VStr p) false exts =
      if path_exists fs p
      then Ok (Some (b, ext_name e))
      else Raise (FileNotFoundError (missing_file_msg fid cls b (ext_name e))).
Proof.
  induction 1 as [|e exts He _ IH]; intros (e' & Hin & Hsuf).
  { by apply elem_of_nil in Hin. }
  simpl. rewrite (strip_dot_nonempty e He). simpl.
  destruct (Str.endswith p ("." +:+ ext_name e)) eqn:Hend.
  - apply endswith_has_suffix in Hend. exists e. split; [by left|]. split; [done|].
    simpl. by rewrite (matched_basename p (ext_name e) Hend).
  - simpl. destruct IH as (e'' & Hin'' & Hsuf'' & Heq).
    + exists e'. split; [|done]. apply elem_of_cons in Hin as [->|Hin]; [|done].
      apply endswith_has_suffix in Hsuf. congruence.
    + exists e''. split; [by right|]. by split.
Qed.

(** With [force] the first declared extension is taken whatever the
    suffix of the path is. *)
Lemma match_extensions_force fs cls fid p e rest :
  e ≠ "" →
  let b := Str.slice_to_neg p (Str.len (ext_name e) + 1) in
  match_extensions fs cls fid (VStr p) true (e :: rest) =
    if path_exists fs (b +:+ "." +:+ ext_name e)
    then Ok (Some (b, ext_name e))
    else Raise (FileNotFoundError (missing_file_msg fid cls b (ext_name e))).
Proof.
  intros He. simpl. rewrite (strip_dot_nonempty e He). simpl.
  by rewrite orb_true_r.
Qed.

Lemma suffix_cases (p : string) (exts : list string) :
  (∃ e, e ∈ exts ∧ has_suffix p (ext_name e))
  ∨ (∀ e, e ∈ exts → ¬ has_suffix p (ext_name e)).
Proof.
  induction exts as [|e exts [(e' & Hin & Hs)|IH]].
  - right. intros e He. by apply elem_of_nil in He.
  - left. exists e'. split; [by right|done].
  - destruct (Str.endswith p ("." +:+ ext_name e)) eqn:Hend.
    + left. exists e. split; [by left|]. by apply endswith_has_suffix.
    + right. intros e' [->|Hin]%elem_of_cons; [|by apply IH].
      intros Hs%endswith_has_suffix. congruence.
Qed.

(** C2, as stated, at a concrete input: with [force] set, the path
    [doc.txt] exists and the first declared extension is [xml], yet the
    constructor yields no valid match; it raises [FileNotFoundError]
    because [doc.xml] is absent. *)
Lemma C2_force_may_raise :
  path_exists Ex.fs_doc "doc.txt" = true ∧
  InputFormat_init Ex.fs_doc "Parse" Ex.wattrs_doc "xml" (ExtStr "xml") "inputfile" false true
    = Raise (FileNotFoundError
        "Specified input file for format xml to Parse does not exist: doc.xml") ∧
  ¬ ∃ f, InputFormat_init Ex.fs_doc "Parse" Ex.wattrs_doc "xml" (ExtStr "xml")
           "inputfile" false true = Ok f ∧ valid f = true.
Proof.
  split; [reflexivity|]. split; [reflexivity|].
  intros (f & Hf & _). vm_compute in Hf. discriminate.
Qed.

(** C2 (amended).  Let the input parameter hold the string [p] and let
    every declared extension be non-empty.  Without [force] the
    constructor returns a valid format exactly when [p] ends in a dot
    followed by a declared extension (one leading dot of the declared
    extension removed, comparison case-sensitive) and [p] exists.  With
    [force] the first declared extension [e] is used whatever the suffix
    of [p] is, the basename being [p] without its last [len e + 1]
    characters; the format is valid when [basename.e] exists and the
    constructor raises [FileNotFoundError] when it does not. *)
Theorem C2_format_match (fs : FS) (cls : string) (wattrs : gmap string PyVal)
    (fid : string) (ext : ExtArg) (ip : string) (dir : bool) (p : string) :
  wattrs !! ip = Some (VStr p) →
  Forall (λ e, e ≠ "") (extensions_of ext) →
  ((∃ f, InputFormat_init fs cls wattrs fid ext ip dir false = Ok f ∧ valid f = true)
     ↔ (∃ e, e ∈ extensions_of ext ∧ has_suffix p (ext_name e))
        ∧ path_exists fs p = true)
  ∧ (∀ e rest, extensions_of ext = e :: rest →
       let b := Str.slice_to_neg p (Str.len (ext_name e) + 1) in
       InputFormat_init fs cls wattrs fid ext ip dir true =
         if path_exists fs (b +:+ "." +:+ ext_name e)
         then Ok (mkInputFormat true fid dir (Some b) (Some (ext_name e)))
         else Raise (FileNotFoundError (missing_file_msg fid cls b (ext_name e)))).
Proof.
  intros Hp Hne. unfold InputFormat_init. rewrite Hp. split.
  - destruct (suffix_cases p (extensions_of ext)) as [Hex|Hno].
    + destruct (match_extensions_some fs cls fid p _ Hne Hex) as (e & _ & _ & ->).
      destruct (path_exists fs p); simpl; split.
      * done.
      * intros _. by eexists.
      * by intros (f & ? & _).
      * by intros [_ ?].
    + rewrite (match_extensions_none fs cls fid p _ Hne) by naive_solver.
      simpl. split.
      * intros (f & [= <-] & Hv). done.
      * intros [(e & Hin & Hs) _]. by destruct (Hno e Hin).
  - intros e rest Hext. rewrite Hext in Hne |- *.
    apply Forall_cons_1 in Hne as [He _].
    rewrite (match_extensions_force fs cls fid p e rest He).
    by destruct (path_exists fs _).
Qed.

Lemma C2_format_match_witness :
  Ex.wattrs_doc !! "inputfile" = Some (VStr "doc.txt") ∧
  Forall (λ e, e ≠ "") (extensions_of (ExtSeq ["xml"; ".txt"])) ∧
  (((∃ f, InputFormat_init Ex.fs_doc "Parse" Ex.wattrs_doc "txt" (ExtSeq ["xml"; ".txt"])
            "inputfile" false false = Ok f ∧ valid f = true)
      ↔ (∃ e, e ∈ extensions_of (ExtSeq ["xml"; ".txt"]) ∧ has_suffix "doc.txt" (ext_name e))
         ∧ path_exists Ex.fs_doc "doc.txt" = true)
   ∧ (∀ e rest, extensions_of (ExtSeq ["xml"; ".txt"]) = e :: rest →
        let b := Str.slice_to_neg "doc.txt" (Str.len (ext_name e) + 1) in
        InputFormat_init Ex.fs_doc "Parse" Ex.wattrs_doc "txt" (ExtSeq ["xml"; ".txt"])
          "inputfile" false true =
          if path_exists Ex.fs_doc (b +:+ "." +:+ ext_name e)
          then Ok (mkInputFormat true "txt" false (Some b) (Some (ext_name e)))
          else Raise (FileNotFoundError (missing_file_msg "txt" "Parse" b (ext_name e))))).
Proof.
  assert (H1 : Ex.wattrs_doc !! "inputfile" = Some (VStr "doc.txt")) by reflexivity.
  assert (H2 : Forall (λ e, e ≠ "") (extensions_of (ExtSeq ["xml"; ".txt"])))
    by (repeat constructor; discriminate).
  exact (conj H1 (conj H2
    (C2_format_match Ex.fs_doc "Parse" Ex.wattrs_doc "txt" (ExtSeq ["xml"; ".txt"])
       "inputfile" false "doc.txt" H1 H2))).
Defined.

(** * Properties of the resolver *)

Section ResolverFacts.

Variable rec : Component → result Feed.

Lemma try_groups_cons self g rest inputlog :
  try_groups rec self (g :: rest) inputlog =
    match run_group rec self g inputlog with
    | Raise e => Raise e
    | Ok (_, input_feeds, inputlog') =>
        if bool_decide (0 < size input_feeds)
        then Ok (inl input_feeds)
        else try_groups rec self rest inputlog'
    end.
Proof. reflexivity. Qed.

(** A group that leaves a non-empty feed ends the walk, whatever
    follows it in the chain. *)
Lemma try_groups_first self g rest inputlog ex feeds inputlog' :
  run_group rec self g inputlog = Ok (ex, feeds, inputlog') →
  0 < size feeds →
  try_groups rec self (g :: rest) inputlog = Ok (inl feeds).
Proof. intros Hg Hs. rewrite try_groups_cons, Hg. by rewrite bool_decide_eq_true_2. Qed.

(** A group that leaves an empty feed is passed over. *)
Lemma try_groups_skip self g rest inputlog ex feeds inputlog' :
  run_group rec self g inputlog = Ok (ex, feeds, inputlog') →
  size feeds = 0 →
  try_groups rec self (g :: rest) inputlog = try_groups rec self rest inputlog'.
Proof.
  intros Hg Hs. rewrite try_groups_cons, Hg.
  rewrite bool_decide_eq_false_2; [done|lia].
Qed.

(** An exception inside a group leaves the walk. *)
Lemma try_groups_raise self g rest inputlog e :
  run_group rec self g inputlog = Raise e →
  try_groups rec self (g :: rest) inputlog = Raise e.
Proof. intros Hg. by rewrite try_groups_cons, Hg. Qed.

(** [InvalidInput] from the sub-component is caught (lines 242-246):
    the loop is left by [break] with one more log entry and the feed as
    it was. *)
Lemma run_subworkflow_invalid swf feeds inputlog m :
  (new_input_feeds ←! rec swf; setup swf new_input_feeds) = Raise (InvalidInput m) →
  run_subworkflow rec swf feeds inputlog
    = Break feeds (inputlog ++ [tried_msg swf m]).
Proof. intros H. unfold run_subworkflow. by rewrite H. Qed.

(** Any other exception of the sub-component is not caught. *)
Lemma run_subworkflow_raise swf feeds inputlog e :
  rec swf = Raise e →
  (∀ m, e ≠ InvalidInput m) →
  run_subworkflow rec swf feeds inputlog = Fail e.
Proof.
  intros H Hne. unfold run_subworkflow. rewrite H. simpl.
  destruct e; try done. by destruct (Hne msg).
Qed.

End ResolverFacts.

Lemma resolve_raise self swf rest later inputlog e :
  setup_input swf = Raise e →
  (∀ m, e ≠ InvalidInput m) →
  resolve self (GTuple (ItInputComponent swf :: rest) :: later) inputlog = Raise e.
Proof.
  intros H Hne. unfold resolve. rewrite try_groups_raise with (e := e); [done|].
  simpl. by rewrite (run_subworkflow_raise _ _ _ _ _ H Hne).
Qed.


(** The first group of the walk decides when it leaves a non-empty
    feed: the groups after it are not looked at. *)
Lemma resolve_first self g later inputlog ex feeds inputlog' :
  run_group setup_input self g inputlog = Ok (ex, feeds, inputlog') →
  0 < size feeds →
  resolve self (g :: later) inputlog = Ok feeds.
Proof.
  intros Hg Hs. unfold resolve.
  by rewrite (try_groups_first _ _ _ _ _ _ _ _ Hg Hs).
Qed.

Lemma resolve_skip self g later inputlog ex feeds inputlog' :
  run_group setup_input self g inputlog = Ok (ex, feeds, inputlog') →
  size feeds = 0 →
  resolve self (g :: later) inputlog = resolve self later inputlog'.
Proof.
  intros Hg Hs. unfold resolve.
  by rewrite (try_groups_skip _ _ _ _ _ _ _ _ Hg Hs).
Qed.

(** An exhausted chain raises [InvalidInput] with the joined log. *)
Lemma resolve_nil self inputlog :
  resolve self [] inputlog = Raise (no_entry_point inputlog).
Proof. reflexivity. Qed.

(** Groups that end with an empty feed are passed over in order. *)
Lemma resolve_rejected self pre rest inputlog inputlog' :
  rejected self pre inputlog inputlog' →
  resolve self (pre ++ rest) inputlog = resolve self rest inputlog'.
Proof.
  induction 1 as [|g groups l l1 l2 ex feeds Hg Hs _ IH]; [done|].
  simpl. by rewrite (resolve_skip _ _ _ _ _ _ _ Hg Hs).
Qed.

(** First match wins: after groups that ended with an empty feed, the
    first group that ends with a non-empty feed decides, and the
    groups after it have no influence on the result. *)
Lemma resolve_first_match self pre g post inputlog inputlog1 inputlog2 ex feeds :
  rejected self pre inputlog inputlog1 →
  run_group setup_input self g inputlog1 = Ok (ex, feeds, inputlog2) →
  0 < size feeds →
  resolve self (pre ++ g :: post) inputlog = Ok feeds.
Proof.
  intros Hpre Hg Hs. rewrite (resolve_rejected _ _ _ _ _ Hpre).
  by apply (resolve_first _ _ _ _ _ _ _ Hg Hs).
Qed.

(** When every group of the chain ends with an empty feed the resolver
    raises [InvalidInput] with the accumulated log. *)
Lemma resolve_all_rejected self groups inputlog inputlog' :
  rejected self groups inputlog inputlog' →
  resolve self groups inputlog = Raise (no_entry_point inputlog').
Proof.
  intros H. rewrite <- (app_nil_r groups).
  by rewrite (resolve_rejected _ _ _ _ _ H).
Qed.

(** The first item that breaks ends the inner loop; the items after it
    are not evaluated. *)
Lemma run_items_break self input rest feeds inputlog feeds' inputlog' :
  run_item setup_input self input feeds inputlog = Break feeds' inputlog' →
  run_items setup_input self (input :: rest) feeds inputlog
    = Ok (Aborted, feeds', inputlog').
Proof. intros H. simpl. by rewrite H. Qed.

(** C1: evaluation at the failing input.  [Ex.parse] declares
    [(txt, conll)] and then [text]; on [doc.txt] the first group is
    left by [break] at its second item with the binding of [txt]
    already made, the second group completes with the non-empty feed
    [{text}] and so is the first group that completes with a non-empty
    feed; [setup_input] returns the feed [{txt}] of the aborted group. *)
Theorem C1_aborted_group_preempts :
  accepts Ex.parse = Ok (AccSeq [Ex.g_pair; Ex.g_text]) ∧
  run_group setup_input Ex.parse Ex.g_pair Ex.log0
    = Ok (Aborted, {[ "txt" := Single (Ex.source_slot "txt") ]},
          Ex.log0 ++ ["InputFormat txt matches!";
                      "InputFormat conll does not match (inputslot=)"]) ∧
  run_group setup_input Ex.parse Ex.g_text
      (Ex.log0 ++ ["InputFormat txt matches!";
                   "InputFormat conll does not match (inputslot=)"])
    = Ok (Completed, {[ "text" := Single (Ex.source_slot "text") ]},
          Ex.log0 ++ ["InputFormat txt matches!";
                      "InputFormat conll does not match (inputslot=)";
                      "InputFormat text matches!"]) ∧
  setup_input Ex.parse = Ok {[ "txt" := Single (Ex.source_slot "txt") ]} ∧
  setup_input Ex.parse ≠ Ok {[ "text" := Single (Ex.source_slot "text") ]}.
Proof.
  split; [reflexivity|]. split; [reflexivity|]. split; [reflexivity|].
  assert (H : setup_input Ex.parse = Ok {[ "txt" := Single (Ex.source_slot "txt") ]})
    by (vm_compute; reflexivity).
  split; [exact H|]. rewrite H. intros Heq. vm_compute in Heq. discriminate.
Qed.

(** C4: evaluation at the failing input.  In the group
    [(txt, conll)] the second item does not resolve and ends the inner
    loop by [break]; the group nevertheless keeps the binding that its
    first item made, and with that feed the resolver returns, whatever
    groups follow. *)
Theorem C4_aborted_group_keeps_feed (later : list (Group Component)) :
  run_item setup_input Ex.parse (ItInputFormat (Ex.invalid_fmt "conll"))
      {[ "txt" := Single (Ex.source_slot "txt") ]}
      (Ex.log0 ++ ["InputFormat txt matches!"])
    = Break {[ "txt" := Single (Ex.source_slot "txt") ]}
        (Ex.log0 ++ ["InputFormat txt matches!";
                     "InputFormat conll does not match (inputslot=)"]) ∧
  resolve Ex.parse (Ex.g_pair :: later) Ex.log0
    = Ok {[ "txt" := Single (Ex.source_slot "txt") ]}.
Proof.
  split; [reflexivity|].
  eapply resolve_first; [reflexivity|]. vm_compute. lia.
Qed.

(** C5: evaluation at the failing input.  The sub-component
    [Ex.tokenize] raises [InvalidInput]; the parent catches it, logs it
    and leaves the group by [break].  The group had bound [txt]
    before, so the resolver returns that feed: in [Ex.parse_sub] the
    next group is not tried, and in [Ex.parse_sub_only], whose only
    group aborted, no [InvalidInput] is raised. *)
Theorem C5_invalid_subworkflow_partial_feed :
  setup_chain Ex.tokenize
    = Raise (InvalidInput
        "Unable to find an entry point for supplied input: inputfile=doc.txt; InputFormat tok does not match (inputslot=)") ∧
  run_group setup_input Ex.parse_sub Ex.g_sub Ex.log0
    = Ok (Aborted, {[ "txt" := Single (Ex.source_slot "txt") ]},
          Ex.log0 ++ ["InputFormat txt matches!";
            "(Tried workflow Tokenize in accept chain, does not handle provided input: Unable to find an entry point for supplied input: inputfile=doc.txt; InputFormat tok does not match (inputslot=))"]) ∧
  setup_input Ex.parse_sub = Ok {[ "txt" := Single (Ex.source_slot "txt") ]} ∧
  setup_input Ex.parse_sub_only = Ok {[ "txt" := Single (Ex.source_slot "txt") ]}.
Proof. repeat split; vm_compute; reflexivity. Qed.











(** * Fan-in of output slots *)

(** An attribute passes the test of line 255 with the format id [X]
    exactly when it is [out_X]. *)
Lemma out_attr_iff (attrname X : string) :
  Str.slice_to attrname 4 = "out_" ∧ Str.slice_from attrname 4 = X
  ↔ attrname = "out_" +:+ X.
Proof.
  unfold Str.slice_to, Str.slice_from. split.
  - intros [Ht Hd]. by rewrite <- (StrFacts.take_drop 4 attrname), Ht, Hd.
  - intros ->. by split.
Qed.

Lemma add_producer_lookup (feeds : Feed) (X : string) (s : Slot) :
  add_producer feeds X s !! X =
    Some (match feeds !! X with
          | Some (Multiple l) => Multiple (l ++ [s])
          | Some (Single s0) => Multiple [s0; s]
          | None => Single s
          end).
Proof.
  unfold add_producer. destruct (feeds !! X) as [[s0|l]|]; by rewrite lookup_insert_eq.
Qed.

Lemma add_producer_lookup_ne (feeds : Feed) (X Y : string) (s : Slot) :
  X ≠ Y → add_producer feeds Y s !! X = feeds !! X.
Proof.
  intros Hne. unfold add_producer.
  destruct (feeds !! Y) as [[s0|l]|]; by rewrite lookup_insert_ne.
Qed.

Lemma merge_step_other t feeds a X :
  a ≠ "out_" +:+ X → merge_step t feeds a !! X = feeds !! X.
Proof.
  intros Hne. unfold merge_step. case_bool_decide as Ht; [|done].
  apply add_producer_lookup_ne. intros ->. apply Hne. by apply out_attr_iff.
Qed.

Lemma merge_step_out t feeds X :
  merge_step t feeds ("out_" +:+ X) = add_producer feeds X (BoundMethod t ("out_" +:+ X)).
Proof. reflexivity. Qed.

Lemma merge_fold_other t attrs feeds X :
  "out_" +:+ X ∉ attrs → fold_left (merge_step t) attrs feeds !! X = feeds !! X.
Proof.
  revert feeds. induction attrs as [|a attrs IH]; intros feeds Hnot; simpl; [done|].
  apply not_elem_of_cons in Hnot as [Hne Hnot].
  rewrite IH by done. by apply merge_step_other.
Qed.

(** A task whose [dir()] lists [out_X] adds exactly one producer of
    [X]. *)
Lemma merge_task_lookup t feeds X :
  NoDup (task_attrs t) →
  "out_" +:+ X ∈ task_attrs t →
  merge_task feeds t !! X
    = add_producer feeds X (BoundMethod t ("out_" +:+ X)) !! X.
Proof.
  unfold merge_task. generalize (task_attrs t). intros attrs. revert feeds.
  induction attrs as [|a attrs IH]; intros feeds Hnd Hin.
  { by apply elem_of_nil in Hin. }
  apply NoDup_cons in Hnd as [Hna Hnd]. simpl.
  destruct (decide (a = "out_" +:+ X)) as [->|Hne].
  - rewrite merge_fold_other by done. by rewrite merge_step_out.
  - apply elem_of_cons in Hin as [Heq|Hin]; [congruence|].
    rewrite IH by done. rewrite !add_producer_lookup.
    by rewrite merge_step_other.
Qed.

(** C6: evaluation at the failing input.  In the group of [Ex.mixed]
    both items resolve and both produce the format id [X]: the
    sub-component through the slot [out_X] of its task, the format
    through its source task.  The feed binds [X] to the single slot of
    the format, and the producer recorded first is lost: line 222
    assigns where lines 257-263 merge.  With the same two producers in
    the other order, [Ex2.mixed_rev], the feed binds [X] to the list of
    both in encounter order. *)
Theorem C6_format_item_overwrites :
  setup_chain (Ex.producer "A") = Ok (RetTask (Ex.producer_task "A")) ∧
  "out_X" ∈ task_attrs (Ex.producer_task "A") ∧
  accepts Ex.mixed
    = Ok (AccSeq [GTuple [ItInputComponent (Ex.producer "A");
                          ItInputFormat (Ex.valid_fmt "X")]]) ∧
  run_item setup_input Ex.mixed (ItInputComponent (Ex.producer "A")) ∅ Ex.log0
    = Next {[ "X" := Single (BoundMethod (Ex.producer_task "A") "out_X") ]} Ex.log0 ∧
  run_items setup_input Ex.mixed
      [ItInputComponent (Ex.producer "A"); ItInputFormat (Ex.valid_fmt "X")] ∅ Ex.log0
    = Ok (Completed, {[ "X" := Single (Ex.source_slot "X") ]},
          Ex.log0 ++ ["InputFormat X matches!"]) ∧
  setup_input Ex.mixed = Ok {[ "X" := Single (Ex.source_slot "X") ]} ∧
  accepts Ex2.mixed_rev
    = Ok (AccSeq [GTuple [ItInputFormat (Ex.valid_fmt "X");
                          ItInputComponent (Ex.producer "A")]]) ∧
  setup_input Ex2.mixed_rev
    = Ok {[ "X" := Multiple [Ex.source_slot "X";
                             BoundMethod (Ex.producer_task "A") "out_X"] ]}.
Proof.
  split; [reflexivity|]. split; [set_solver|].
  repeat split; vm_compute; reflexivity.
Qed.

(** X25.  Fan-in through component references.  The first producer
    recorded for a format id is a scalar binding.  When the next item
    of the group is a reference to a sub-component whose [setup()]
    returns a task with an output slot [out_X], the binding of [X] is
    promoted to the two-element list of the first producer followed by
    that slot.  A format item binds its format id by assignment. *)
Theorem fan_in_component_promotes (self : Component) (first : Item Component)
    (swf : Component) (t : TaskObj) (X : string) (s1 : Slot) (feeds1 : Feed)
    (inputlog inputlog1 : list string) :
  run_item setup_input self first ∅ inputlog = Next feeds1 inputlog1 →
  feeds1 !! X = Some (Single s1) →
  setup_chain swf = Ok (RetTask t) →
  NoDup (task_attrs t) →
  "out_" +:+ X ∈ task_attrs t →
  (∀ (feeds : Feed) (s : Slot),
     feeds !! X = None → add_producer feeds X s !! X = Some (Single s))
  ∧ (∀ (feeds : Feed) (input : InputFormat),
       run_item setup_input self (ItInputFormat input) feeds inputlog
         = Next (<[format_id input :=
                     Single (BoundMethod (InputFormat_task input) "out_default")]> feeds)
                (inputlog ++ ["InputFormat " +:+ format_id input +:+ " matches!"])
       ∨ ∃ inputlog', run_item setup_input self (ItInputFormat input) feeds inputlog
                        = Break feeds inputlog')
  ∧ ∃ feeds2,
      run_group setup_input self (GTuple [first; ItInputComponent swf]) inputlog
        = Ok (Completed, feeds2, inputlog1)
      ∧ feeds2 !! X = Some (Multiple [s1; BoundMethod t ("out_" +:+ X)]).
Proof.
  intros Hfirst Hs1 Hchain Hnd Hin. split; [|split].
  - intros feeds s Hnone. by rewrite add_producer_lookup, Hnone.
  - intros feeds input. simpl.
    destruct (negb _ && negb _); [right; by eexists|].
    destruct (valid input && _); [by left|right; by eexists].
  - exists (merge_task feeds1 t). split.
    + simpl. rewrite Hfirst. unfold run_subworkflow.
      unfold setup_chain in Hchain. by rewrite Hchain.
    + rewrite (merge_task_lookup t feeds1 X Hnd Hin).
      by rewrite add_producer_lookup, Hs1.
Qed.

Lemma fan_in_component_promotes_witness :
  (∀ (feeds : Feed) (s : Slot),
     feeds !! "X" = None → add_producer feeds "X" s !! "X" = Some (Single s))
  ∧ (∀ (feeds : Feed) (input : InputFormat),
       run_item setup_input Ex.siblings (ItInputFormat input) feeds Ex.log0
         = Next (<[format_id input :=
                     Single (BoundMethod (InputFormat_task input) "out_default")]> feeds)
                (Ex.log0 ++ ["InputFormat " +:+ format_id input +:+ " matches!"])
       ∨ ∃ inputlog', run_item setup_input Ex.siblings (ItInputFormat input) feeds Ex.log0
                        = Break feeds inputlog')
  ∧ ∃ feeds2,
      run_group setup_input Ex.siblings
          (GTuple [ItInputComponent (Ex.producer "A"); ItInputComponent (Ex.producer "B")])
          Ex.log0
        = Ok (Completed, feeds2, Ex.log0)
      ∧ feeds2 !! "X"
        = Some (Multiple [BoundMethod (Ex.producer_task "A") "out_X";
                          BoundMethod (Ex.producer_task "B") "out_X"]).
Proof.
  apply (fan_in_component_promotes Ex.siblings (ItInputComponent (Ex.producer "A"))
           (Ex.producer "B")
           (Ex.producer_task "B") "X" (BoundMethod (Ex.producer_task "A") "out_X")
           {[ "X" := Single (BoundMethod (Ex.producer_task "A") "out_X") ]}
           Ex.log0 Ex.log0).
  - vm_compute. reflexivity.
  - reflexivity.
  - reflexivity.
  - apply (bool_decide_unpack _). vm_compute. exact I.
  - apply (bool_decide_unpack _). vm_compute. exact I.
Defined.

(** * Parameter propagation *)

Lemma declared_parameters_elem (cls : ClassInfo) (key : string) :
  key ∈ declared_parameters cls ↔ (key, true) ∈ cls_dir cls.
Proof.
  unfold declared_parameters. rewrite list_elem_of_fmap. split.
  - intros ([k b] & -> & Hin). apply list_elem_of_filter in Hin as [Hb Hin].
    simpl in *. by subst.
  - intros Hin. exists (key, true). split; [done|]. by apply list_elem_of_filter.
Qed.

Lemma fold_transfer_lookup (parent : gmap string PyVal) (entries : list (string * bool))
    (kwargs : gmap string PyVal) (key : string) :
  fold_left (transfer parent) entries kwargs !! key =
    match kwargs !! key with
    | Some v => Some v
    | None => if bool_decide ((key, true) ∈ entries) then parent !! key else None
    end.
Proof.
  revert kwargs. induction entries as [|[k b] entries IH]; intros kwargs.
  { simpl. by destruct (kwargs !! key). }
  cbn [fold_left]. rewrite IH. clear IH.
  unfold transfer. destruct b.
  - destruct (decide (key = k)) as [->|Hne].
    + destruct (kwargs !! k) as [v|] eqn:Hk; [by rewrite Hk|].
      rewrite (bool_decide_eq_true_2 ((k, true) ∈ (k, true) :: entries)) by (by left).
      destruct (parent !! k) as [v|] eqn:Hp.
      * by rewrite lookup_insert_eq.
      * rewrite Hk. by case_bool_decide.
    + assert (Hiff : bool_decide ((key, true) ∈ (k, true) :: entries)
                     = bool_decide ((key, true) ∈ entries)).
      { apply bool_decide_ext. rewrite elem_of_cons.
        split; [intros [[= ?]|?]; done|by right]. }
      rewrite Hiff.
      destruct (kwargs !! k) as [v|]; [done|].
      destruct (parent !! k) as [v|]; [|done].
      by rewrite lookup_insert_ne.
  - assert (Hiff : bool_decide ((key, true) ∈ (k, false) :: entries)
                   = bool_decide ((key, true) ∈ entries)).
    { apply bool_decide_ext. rewrite elem_of_cons.
      split; [intros [[= ?]|?]; done|by right]. }
    by rewrite Hiff.
Qed.

(** C7.  The keyword arguments that [InputComponent.__init__] binds
    are this function of the parent's attributes, the names that the
    child class declares as parameters and the explicit keyword
    arguments, and of nothing else: a name bound explicitly keeps its
    explicit value; a name not bound explicitly is bound to the
    parent's value when the child declares it as a parameter and the
    parent has an attribute of that name; every other name stays
    unbound. *)
Theorem C7_parameter_propagation (parent : gmap string PyVal) (cls : ClassInfo)
    (args : list PyVal) (overrides : gmap string PyVal) (key : string) :
  kwargs (InputComponent_init parent cls args overrides) !! key =
    match overrides !! key with
    | Some v => Some v
    | None =>
        if bool_decide (key ∈ declared_parameters cls) then parent !! key else None
    end.
Proof.
  unfold InputComponent_init. cbn [kwargs]. rewrite fold_transfer_lookup.
  destruct (overrides !! key); [done|].
  apply (f_equal (λ b : bool, if b then parent !! key else None)).
  apply bool_decide_ext. symmetry. apply declared_parameters_elem.
Qed.

(** * Output directories *)

(** As long as nothing assigns [__output_dirs], [on_success] changes
    nothing and raises nothing. *)
Lemma on_success_unset (fs : FS) (self : TaskState) :
  output_dirs self = None → on_success fs self = (fs, Ok ()).
Proof.
  intros H. unfold on_success. rewrite H.
  by destruct (output_dir self) as [[|d l]|].
Qed.

Lemma setup_output_dir_output_dirs fs self d fs' self' :
  setup_output_dir fs self d = Ok (fs', self') → output_dirs self' = output_dirs self.
Proof.
  unfold setup_output_dir, bind. intros H.
  destruct (if path_exists fs d then _ else _); by simplify_eq.
Qed.

(** C8: evaluation at the failing input.  A new task registers the
    directory [out] on an empty store and reports success with [out]
    still empty: [on_success] leaves the store as it is, [out] is not
    renamed to [out.failed], and no [EmptyDirectory] is raised, since
    line 328 reads the attribute [__output_dirs] that nothing assigns
    and the [AttributeError] is caught. *)
Theorem C8_empty_directory_not_marked :
  setup_output_dir ∅ new_task_state "out"
    = Ok ({[ "out" := Dir [] ]}, mkTaskState (Some ["out"]) None) ∧
  glob_all {[ "out" := Dir [] ]} "out" = [] ∧
  on_success {[ "out" := Dir [] ]} (mkTaskState (Some ["out"]) None)
    = ({[ "out" := Dir [] ]}, Ok ()) ∧
  path_exists {[ "out" := Dir [] ]} "out.failed" = false.
Proof. repeat split; vm_compute; reflexivity. Qed.

Lemma rename_Ok fs src dst fs' :
  rename fs src dst = Ok fs' →
  ∃ node, fs !! src = Some node ∧ fs' = <[dst := node]> (delete src fs).
Proof.
  unfold rename. intros H. destruct (fs !! src) as [node|]; [|done].
  exists node. split; [done|].
  destruct node, (fs !! dst) as [[|[|? ?]]|]; by simplify_eq.
Qed.











(** ** Plain names and flat stores *)

Lemma no_separator_app (a b : string) :
  no_separator (a +:+ b) = no_separator a && no_separator b.
Proof.
  induction a as [|c a IH]; [by rewrite StrFacts.app_nil_l|].
  rewrite StrFacts.app_cons. cbn [no_separator]. rewrite IH.
  by rewrite !andb_assoc.
Qed.

Lemma plain_name_spec (d : string) :
  plain_name d = true ↔ d ≠ "" ∧ d ≠ "." ∧ d ≠ ".." ∧ no_separator d = true.
Proof.
  unfold plain_name. rewrite !andb_true_iff, !negb_true_iff, !String.eqb_neq.
  tauto.
Qed.

(** The marked name of a plain name is a plain name. *)
Lemma plain_name_failed (d : string) :
  plain_name d = true → plain_name (d +:+ ".failed") = true.
Proof.
  rewrite !plain_name_spec. intros (_ & _ & _ & Hsep).
  assert (Hlen : ∀ s, d +:+ ".failed" = s → 7 ≤ Str.len s).
  { intros s <-. rewrite StrFacts.len_app. simpl. lia. }
  split; [|split; [|split]].
  - intros H%Hlen. simpl in H. lia.
  - intros H%Hlen. simpl in H. lia.
  - intros H%Hlen. simpl in H. lia.
  - by rewrite no_separator_app, Hsep.
Qed.

Lemma flat_insert (fs : FS) (k : string) (node : Node) :
  flat fs → plain_name k = true → flat (<[k := node]> fs).
Proof.
  intros Hfs Hk p Hp. destruct (decide (p = k)) as [->|Hne]; [done|].
  rewrite lookup_insert_ne in Hp by done. by apply Hfs.
Qed.

Lemma flat_delete (fs : FS) (k : string) : flat fs → flat (delete k fs).
Proof.
  intros Hfs p Hp. destruct (decide (p = k)) as [->|Hne].
  - rewrite lookup_delete_eq in Hp. by destruct Hp.
  - rewrite lookup_delete_ne in Hp by done. by apply Hfs.
Qed.

Lemma flat_rename (fs fs' : FS) (src dst : string) :
  flat fs → plain_name dst = true → rename fs src dst = Ok fs' → flat fs'.
Proof.
  intros Hfs Hdst (node & _ & ->)%rename_Ok.
  by apply flat_insert, Hdst; apply flat_delete.
Qed.

(** The loop keeps the store flat when the registered names are plain. *)
Lemma mark_failed_flat (fs : FS) (dirs : list string) :
  flat fs → (∀ x, x ∈ dirs → plain_name x = true) → flat (mark_failed fs dirs).1.
Proof.
  revert fs. induction dirs as [|d rest IH]; intros fs Hfs Hplain; simpl; [done|].
  assert (Hrest : ∀ x, x ∈ rest → plain_name x = true)
    by (intros x Hx; apply Hplain; by right).
  destruct (path_exists fs d); [|by apply IH].
  destruct (rename fs d (d +:+ ".failed")) as [fs'|e] eqn:Hr; [|done].
  apply IH; [|done]. apply (flat_rename fs fs' d (d +:+ ".failed")); [done| |done].
  apply plain_name_failed, Hplain. by left.
Qed.



(** * The shared list of injected classes *)

Lemma defining_class_own (w : ClassWorld) (cls c : string) :
  defining_class w cls = Some c → is_Some (own_accepted w !! c).
Proof.
  unfold defining_class. destruct (mro w !! cls) as [m|]; [|done]. simpl.
  intros H%head_Some_elem_of. by apply list_elem_of_filter in H as [? _].
Qed.





(** * Further properties of the resolver *)

Lemma try_each_inl {X} (run : X → list string → result (LoopExit * Feed * list string))
    (xs : list X) (inputlog : list string) (feeds : Feed) :
  try_each run xs inputlog = Ok (inl feeds) → 0 < size feeds.
Proof.
  revert inputlog. induction xs as [|x xs IH]; intros inputlog; simpl; [done|].
  destruct (run x inputlog) as [[[ex f] log']|e]; [|done].
  case_bool_decide as Hs; [|by apply IH]. by intros [= <-].
Qed.

Lemma resolve_size (self : Component) (groups : list (Group Component))
    (inputlog : list string) (feeds : Feed) :
  resolve self groups inputlog = Ok feeds → 0 < size feeds.
Proof.
  unfold resolve, try_groups.
  destruct (try_each _ _ _) as [[f|log']|e] eqn:Ht; try done.
  intros [= <-]. by apply try_each_inl in Ht.
Qed.

(** X1.  A feed returned by [setup_input] is never empty, so that the
    indexing [list(input_feeds.items())[0]] of line 178 is safe. *)
Theorem setup_input_nonempty (self : Component) (feeds : Feed) :
  setup_input self = Ok feeds → 0 < size feeds.
Proof.
  rewrite setup_input_eq. destruct (accepts self) as [accepted|e]; [|done].
  simpl. destruct (initial_log self) as [inputlog|e]; [|done]. simpl.
  apply resolve_size.
Qed.

Lemma setup_input_nonempty_witness :
  0 < size ({[ "txt" := Single (Ex.source_slot "txt") ]} : Feed).
Proof.
  apply (setup_input_nonempty Ex.parse). vm_compute. reflexivity.
Defined.

Section Gates.

Variable rec : Component → result Feed.

(** With a [startcomponent] that names another class, a format item
    breaks the group and binds nothing (lines 217-219). *)
Lemma run_item_gated self input feeds inputlog :
  startcomponent self ≠ "" →
  startcomponent self ≠ class_name self →
  is_format_item input = true →
  ∃ inputlog', run_item rec self input feeds inputlog = Break feeds inputlog'.
Proof.
  intros H1%String.eqb_neq H2%String.eqb_neq Hf.
  destruct input as [f| | |]; try done. simpl. rewrite H1, H2. simpl. by eexists.
Qed.

Lemma run_group_gated self g inputlog :
  startcomponent self ≠ "" →
  startcomponent self ≠ class_name self →
  format_only g = true →
  ∃ ex inputlog', run_group rec self g inputlog = Ok (ex, ∅, inputlog').
Proof.
  intros H1 H2 Hg. destruct g as [[|input items]|input]; simpl in *.
  - by do 2 eexists.
  - apply andb_true_iff in Hg as [Hi _].
    destruct (run_item_gated self input ∅ inputlog H1 H2 Hi) as [l ->]. by do 2 eexists.
  - destruct (run_item_gated self input ∅ inputlog H1 H2 Hg) as [l ->]. by do 2 eexists.
Qed.

Lemma try_each_gated self groups inputlog :
  startcomponent self ≠ "" →
  startcomponent self ≠ class_name self →
  forallb format_only groups = true →
  ∃ inputlog', try_each (run_group rec self) groups inputlog = Ok (inr inputlog').
Proof.
  intros H1 H2. revert inputlog.
  induction groups as [|g groups IH]; intros inputlog Hall; simpl in *.
  - by eexists.
  - apply andb_true_iff in Hall as [Hg Hall].
    destruct (run_group_gated self g inputlog H1 H2 Hg) as (ex & l & ->).
    rewrite bool_decide_eq_false_2 by (rewrite map_size_empty; lia).
    by apply IH.
Qed.

(** With an input-slot restriction a format item leaves only single
    bindings under the restricting id (lines 220-228). *)
Lemma run_item_slot self input feeds inputlog :
  inputslot self ≠ "" →
  is_format_item input = true →
  only_single_at (inputslot self) feeds →
  match run_item rec self input feeds inputlog with
  | Next feeds' _ | Break feeds' _ => only_single_at (inputslot self) feeds'
  | Fail _ => False
  end.
Proof.
  intros Hs%String.eqb_neq Hf Hfeeds. destruct input as [f| | |]; try done. simpl.
  destruct (negb _ && negb _); [done|]. rewrite Hs. simpl.
  destruct (valid f); simpl; [|done].
  destruct (String.eqb (inputslot self) (format_id f)) eqn:Heq; [|done].
  apply String.eqb_eq in Heq. intros k v.
  destruct (decide (k = format_id f)) as [->|Hne].
  - rewrite lookup_insert_eq. intros [= <-]. split; [done|by eexists].
  - rewrite lookup_insert_ne by done. apply Hfeeds.
Qed.

Lemma run_items_slot self items feeds inputlog :
  inputslot self ≠ "" →
  forallb is_format_item items = true →
  only_single_at (inputslot self) feeds →
  ∃ ex feeds' inputlog',
    run_items rec self items feeds inputlog = Ok (ex, feeds', inputlog')
    ∧ only_single_at (inputslot self) feeds'.
Proof.
  intros Hs. revert feeds inputlog.
  induction items as [|input items IH]; intros feeds inputlog Hall Hfeeds; simpl in *.
  - by do 3 eexists.
  - apply andb_true_iff in Hall as [Hi Hall].
    pose proof (run_item_slot self input feeds inputlog Hs Hi Hfeeds) as H.
    destruct (run_item rec self input feeds inputlog) as [f' l'|f' l'|e]; [| |done].
    + by apply IH.
    + by do 3 eexists.
Qed.

Lemma run_group_slot self g inputlog :
  inputslot self ≠ "" →
  format_only g = true →
  ∃ ex feeds' inputlog',
    run_group rec self g inputlog = Ok (ex, feeds', inputlog')
    ∧ only_single_at (inputslot self) feeds'.
Proof.
  intros Hs Hg. assert (Hempty : only_single_at (inputslot self) ∅).
  { intros k v Hk. by rewrite lookup_empty in Hk. }
  destruct g as [items|input]; simpl in *.
  - by apply run_items_slot.
  - pose proof (run_item_slot self input ∅ inputlog Hs Hg Hempty) as H.
    destruct (run_item rec self input ∅ inputlog) as [f' l'|f' l'|e]; [| |done];
      by do 3 eexists.
Qed.

Lemma try_each_slot self groups inputlog feeds :
  inputslot self ≠ "" →
  forallb format_only groups = true →
  try_each (run_group rec self) groups inputlog = Ok (inl feeds) →
  only_single_at (inputslot self) feeds.
Proof.
  intros Hs. revert inputlog.
  induction groups as [|g groups IH]; intros inputlog Hall; simpl in *; [done|].
  apply andb_true_iff in Hall as [Hg Hall].
  destruct (run_group_slot self g inputlog Hs Hg) as (ex & f' & l' & -> & Hf').
  case_bool_decide; [by intros [= <-]|by apply IH].
Qed.

End Gates.

(** X2.  A component started with a [startcomponent] that names
    another class accepts no raw input: when every alternative of its
    chain consists of formats only, its resolution raises
    [InvalidInput], whether or not the formats match the input file. *)
Theorem startcomponent_gate (self : Component) (accepted : AcceptsRet Component)
    (inputlog : list string) :
  startcomponent self ≠ "" →
  startcomponent self ≠ class_name self →
  accepts self = Ok accepted →
  initial_log self = Ok inputlog →
  forallb format_only (chain accepted (accepted_components self)) = true →
  ∃ inputlog', setup_input self = Raise (no_entry_point inputlog').
Proof.
  intros H1 H2 Hacc Hlog Hall. rewrite setup_input_eq, Hacc. simpl. rewrite Hlog. simpl.
  unfold resolve, try_groups.
  destruct (try_each_gated setup_input self _ inputlog H1 H2 Hall) as [l ->].
  by eexists.
Qed.

Lemma startcomponent_gate_witness :
  ∃ inputlog', setup_input Ex2.parse_gated = Raise (no_entry_point inputlog').
Proof.
  apply (startcomponent_gate Ex2.parse_gated (AccSeq [Ex.g_pair; Ex.g_text]) Ex.log0);
    try reflexivity; discriminate.
Defined.

(** X3.  With an input-slot restriction, a chain of formats only can
    return but one feed: the single binding of the restricting format
    id to one source slot. *)
Theorem inputslot_restricts_feed (self : Component) (accepted : AcceptsRet Component)
    (feeds : Feed) :
  inputslot self ≠ "" →
  accepts self = Ok accepted →
  forallb format_only (chain accepted (accepted_components self)) = true →
  setup_input self = Ok feeds →
  ∃ s, feeds = {[ inputslot self := Single s ]}.
Proof.
  intros Hs Hacc Hall Hres.
  rewrite setup_input_eq, Hacc in Hres. simpl in Hres.
  destruct (initial_log self) as [inputlog|e]; [|done]. simpl in Hres.
  pose proof (resolve_size _ _ _ _ Hres) as Hsize.
  unfold resolve, try_groups in Hres.
  destruct (try_each _ _ _) as [[f|l]|e] eqn:Ht; try done.
  injection Hres as ->.
  pose proof (try_each_slot setup_input self _ inputlog feeds Hs Hall Ht) as Honly.
  destruct (map_choose feeds) as (k & v & Hkv).
  { intros ->. rewrite map_size_empty in Hsize. lia. }
  destruct (Honly k v Hkv) as [-> [s ->]]. exists s. apply map_eq. intros i.
  destruct (decide (i = inputslot self)) as [->|Hne].
  - by rewrite lookup_singleton_eq.
  - rewrite lookup_singleton_ne by done.
    destruct (feeds !! i) as [v|] eqn:Hi; [|done].
    by destruct (Honly i v Hi) as [? _].
Qed.

Lemma inputslot_restricts_feed_witness :
  ∃ s, ({[ "text" := Single (Ex.source_slot "text") ]} : Feed)
       = {[ inputslot Ex2.parse_slot := Single s ]}.
Proof.
  apply (inputslot_restricts_feed Ex2.parse_slot (AccSeq [Ex.g_pair; Ex.g_text])).
  - discriminate.
  - reflexivity.
  - reflexivity.
  - vm_compute. reflexivity.
Defined.

(** X4.  A class injected with [accept] cannot be resolved: when the
    declared alternatives are exhausted and the walk reaches an
    injected class, line 234 reads [input.args] off the class object
    and [setup_input] raises [AttributeError] instead of trying the
    class or raising [InvalidInput]. *)
Theorem injected_class_raises (self : Component) (accepted : AcceptsRet Component)
    (inputlog inputlog' : list string) (name : string) (rest : list (Item Component)) :
  accepts self = Ok accepted →
  initial_log self = Ok inputlog →
  rejected self (groups_of accepted) inputlog inputlog' →
  accepted_components self = ItClass name None :: rest →
  setup_input self
    = Raise (AttributeError ("type object '" +:+ name +:+ "' has no attribute 'args'")).
Proof.
  intros Hacc Hlog Hrej Hinj. rewrite setup_input_eq, Hacc. simpl. rewrite Hlog. simpl.
  unfold chain. rewrite (resolve_rejected _ _ _ _ _ Hrej), Hinj. reflexivity.
Qed.

Lemma injected_class_raises_witness :
  setup_input Ex2.with_injected
    = Raise (AttributeError ("type object '" +:+ "Tokenize" +:+ "' has no attribute 'args'")).
Proof.
  apply (injected_class_raises Ex2.with_injected
           (AccOne (ItInputFormat (Ex.invalid_fmt "tok"))) Ex.log0
           (Ex.log0 ++ ["InputFormat tok does not match (inputslot=)"]) "Tokenize" []).
  - reflexivity.
  - reflexivity.
  - eapply rejected_cons; [reflexivity|reflexivity|apply rejected_nil].
  - reflexivity.
Defined.

(** * Further properties of the format matcher *)

(** X5.  A path that ends in none of the declared extensions is not an
    error: without [force] the constructor returns a format with
    [valid = false], and it does so without looking at the file
    system. *)
Theorem format_nonmatch_is_invalid (fs : FS) (cls : string) (wattrs : gmap string PyVal)
    (fid : string) (ext : ExtArg) (ip : string) (dir : bool) (p : string) :
  wattrs !! ip = Some (VStr p) →
  Forall (λ e, e ≠ "") (extensions_of ext) →
  (∀ e, e ∈ extensions_of ext → ¬ has_suffix p (ext_name e)) →
  InputFormat_init fs cls wattrs fid ext ip dir false
    = Ok (mkInputFormat false fid dir None None).
Proof.
  intros Hp Hne Hno. unfold InputFormat_init. rewrite Hp.
  by rewrite (match_extensions_none fs cls fid p _ Hne Hno).
Qed.

Lemma format_nonmatch_is_invalid_witness :
  InputFormat_init ∅ "Tokenize" Ex.wattrs_doc "tok" (ExtSeq ["tok"; ".TXT"])
      "inputfile" false false
    = Ok (mkInputFormat false "tok" false None None).
Proof.
  apply (format_nonmatch_is_invalid ∅ "Tokenize" Ex.wattrs_doc "tok"
           (ExtSeq ["tok"; ".TXT"]) "inputfile" false "doc.txt").
  - reflexivity.
  - repeat constructor; discriminate.
  - intros e He Hs%endswith_has_suffix.
    apply elem_of_cons in He as [->|He]; [discriminate|].
    apply list_elem_of_singleton in He as ->. discriminate.
Defined.

Lemma match_extensions_Some fs cls fid p exts b e :
  match_extensions fs cls fid (VStr p) false exts = Ok (Some (b, e)) →
  b +:+ "." +:+ e = p ∧ path_exists fs p = true.
Proof.
  induction exts as [|x exts IH]; simpl; [done|].
  destruct (strip_dot x) as [x'|err]; [|done]. simpl.
  destruct (Str.endswith p ("." +:+ x')) eqn:Hend; simpl; [|done].
  apply endswith_has_suffix in Hend.
  rewrite (matched_basename p x' Hend).
  destruct (path_exists fs p) eqn:Hex; [|done].
  intros [= <- <-]. split; [|done]. by apply matched_basename.
Qed.

(** X6.  A format that matched without [force] names the input file:
    its [__str__], and the path of the target that the source task's
    [out_default] returns, are the input path, and that path exists. *)
Theorem valid_format_names_input (fs : FS) (cls : string) (wattrs : gmap string PyVal)
    (fid : string) (ext : ExtArg) (ip : string) (dir : bool) (p : string)
    (f : InputFormat) :
  wattrs !! ip = Some (VStr p) →
  InputFormat_init fs cls wattrs fid ext ip dir false = Ok f →
  valid f = true →
  InputFormat_str f = Ok p
  ∧ out_default_path (InputFormat_task f) = Ok p
  ∧ path_exists fs p = true.
Proof.
  intros Hp Hinit Hv. unfold InputFormat_init in Hinit. rewrite Hp in Hinit.
  destruct (match_extensions _ _ _ _ _ _) as [[[b e]|]|err] eqn:Hm; simpl in Hinit;
    [|by simplify_eq|done].
  injection Hinit as <-. clear Hv.
  apply match_extensions_Some in Hm as [Hbe Hex].
  split; [|split; [|done]].
  - by rewrite <- Hbe.
  - by rewrite <- Hbe.
Qed.

Lemma valid_format_names_input_witness :
  InputFormat_str (Ex.valid_fmt "txt") = Ok "doc.txt"
  ∧ out_default_path (InputFormat_task (Ex.valid_fmt "txt")) = Ok "doc.txt"
  ∧ path_exists Ex.fs_doc "doc.txt" = true.
Proof.
  apply (valid_format_names_input Ex.fs_doc "Parse" Ex.wattrs_doc "txt" (ExtStr ".txt")
           "inputfile" false "doc.txt" (Ex.valid_fmt "txt")); reflexivity.
Defined.



(** * Further properties of the output directories *)

Lemma mark_failed_frame fs dirs p :
  p ∉ dirs →
  (∀ d, d ∈ dirs → p ≠ d +:+ ".failed") →
  (mark_failed fs dirs).1 !! p = fs !! p.
Proof.
  revert fs. induction dirs as [|d rest IH]; intros fs Hnot Hne; simpl; [done|].
  apply not_elem_of_cons in Hnot as [Hpd Hnot].
  assert (Hrest : ∀ e, e ∈ rest → p ≠ e +:+ ".failed")
    by (intros e He; apply Hne; by right).
  destruct (path_exists fs d); [|by apply IH].
  destruct (rename fs d (d +:+ ".failed")) as [fs'|e] eqn:Hr; [|done].
  apply rename_Ok in Hr as (node & _ & ->). rewrite IH by done.
  rewrite lookup_insert_ne by (apply not_eq_sym, Hne; by left).
  by rewrite lookup_delete_ne.
Qed.





Lemma setup_output_dirs_unset fs self ds fs' self' :
  setup_output_dirs fs self ds = Ok (fs', self') → output_dirs self' = output_dirs self.
Proof.
  revert fs self. induction ds as [|d ds IH]; intros fs self; simpl.
  - by intros [= <- <-].
  - destruct (setup_output_dir fs self d) as [[fs1 self1]|e] eqn:H1; [|done]. simpl.
    intros H%IH. rewrite H. by eapply setup_output_dir_output_dirs.
Qed.

(** X10.  For a task that registered its directories through
    [setup_output_dir], whatever they are and whatever they contain,
    [on_success] changes nothing in the file system and raises
    nothing. *)
Theorem on_success_never_marks (fs0 : FS) (ds : list string) (fs' : FS)
    (self' : TaskState) (fs : FS) :
  setup_output_dirs fs0 new_task_state ds = Ok (fs', self') →
  on_success fs self' = (fs, Ok ()).
Proof.
  intros H%setup_output_dirs_unset. by apply on_success_unset.
Qed.

Lemma on_success_never_marks_witness :
  on_success {[ "out" := Dir []; "tmp" := Dir [] ]}
      (mkTaskState (Some ["out"; "tmp"]) None)
    = ({[ "out" := Dir []; "tmp" := Dir [] ]}, Ok ()).
Proof.
  apply (on_success_never_marks ∅ ["out"; "tmp"] {[ "out" := Dir []; "tmp" := Dir [] ]}).
  vm_compute. reflexivity.
Defined.

(** X11.  On a store that lists the entries of the working directory,
    with the directories registered by plain names, the failure
    handler touches only the registered names and their [.failed]
    names: every other entry is as it was, also when a rename raises
    midway, and the store still lists plain names only. *)
Theorem on_failure_frame (fs : FS) (self : TaskState) (p : string) :
  flat fs →
  (∀ d, d ∈ default [] (output_dir self) → plain_name d = true) →
  plain_name p = true →
  p ∉ default [] (output_dir self) →
  (∀ d, d ∈ default [] (output_dir self) → p ≠ d +:+ ".failed") →
  (on_failure fs self).1 !! p = fs !! p
  ∧ flat (on_failure fs self).1.
Proof.
  unfold on_failure. destruct (output_dir self) as [[|d dirs]|]; simpl; [done| |done].
  intros Hflat Hplain _ Hnot Hne. split.
  - by apply (mark_failed_frame fs (d :: dirs)).
  - by apply (mark_failed_flat fs (d :: dirs)).
Qed.

Lemma on_failure_frame_witness :
  (on_failure {[ "out" := Dir []; "keep" := File ]} (mkTaskState (Some ["out"]) None)).1
    !! "keep"
  = ({[ "out" := Dir []; "keep" := File ]} : FS) !! "keep"
  ∧ flat (on_failure {[ "out" := Dir []; "keep" := File ]}
            (mkTaskState (Some ["out"]) None)).1.
Proof.
  apply (on_failure_frame {[ "out" := Dir []; "keep" := File ]}
           (mkTaskState (Some ["out"]) None) "keep").
  - intros p [node Hp]. apply lookup_insert_Some in Hp as [[<- _]|[_ Hp]]; [reflexivity|].
    apply lookup_singleton_Some in Hp as [<- _]. reflexivity.
  - simpl. intros d ->%list_elem_of_singleton. reflexivity.
  - reflexivity.
  - simpl. intros H%list_elem_of_singleton. discriminate.
  - simpl. intros d ->%list_elem_of_singleton. discriminate.
Defined.

(** * Further properties of accept *)

Lemma accepted_ref_ext (w w' : ClassWorld) (cls : string) :
  mro w' = mro w → own_accepted w' = own_accepted w →
  accepted_ref w' cls = accepted_ref w cls.
Proof. intros Hm Ho. unfold accepted_ref, defining_class. by rewrite Hm, Ho. Qed.

Lemma add_new_cons (items : list string) (c : string) (cs : list string) :
  add_new items (c :: cs)
    = add_new (if bool_decide (c ∈ items) then items else items ++ [c]) cs.
Proof. reflexivity. Qed.

(** What [accept] does to the store of list objects. *)
Lemma accept_spec (w : ClassWorld) (cls : string) (cs : list string) (l : nat) :
  accepted_ref w cls = Some l →
  ∃ w', accept w cls cs = Ok w'
    ∧ mro w' = mro w
    ∧ own_accepted w' = own_accepted w
    ∧ default [] (lists w' !! l) = add_new (default [] (lists w !! l)) cs
    ∧ ∀ l', l' ≠ l → lists w' !! l' = lists w !! l'.
Proof.
  revert w. induction cs as [|c cs IH]; intros w Hl.
  { exists w. by repeat split. }
  cbn [accept]. unfold accept_one. rewrite Hl. case_bool_decide as Hc; cbn [bind].
  - destruct (IH w Hl) as (w' & -> & ? & ? & Hitems & ?). exists w'.
    split; [done|]. split; [done|]. split; [done|]. split; [|done].
    rewrite Hitems, add_new_cons. by rewrite bool_decide_eq_true_2.
  - set (w1 := mkClassWorld (mro w) (own_accepted w)
                 (<[l := default [] (lists w !! l) ++ [c]]> (lists w))).
    assert (Hl1 : accepted_ref w1 cls = Some l) by (by rewrite <- Hl).
    destruct (IH w1 Hl1) as (w' & -> & Hm & Ho & Hitems & Hother). exists w'.
    split; [done|]. split; [done|]. split; [done|]. split.
    + rewrite Hitems, add_new_cons.
      rewrite bool_decide_eq_false_2 by done. simpl. by rewrite lookup_insert_eq.
    + intros l' Hne. rewrite Hother by done. simpl. by rewrite lookup_insert_ne.
Qed.

Lemma add_new_prefix (items cs : list string) : items `prefix_of` add_new items cs.
Proof.
  revert items. induction cs as [|c cs IH]; intros items; [done|].
  rewrite add_new_cons. case_bool_decide; [apply IH|].
  etrans; [|apply IH]. by apply prefix_app_r.
Qed.

Lemma add_new_NoDup (items cs : list string) : NoDup items → NoDup (add_new items cs).
Proof.
  revert items. induction cs as [|c cs IH]; intros items Hnd; [done|].
  rewrite add_new_cons. case_bool_decide as Hc; [by apply IH|].
  apply IH. apply NoDup_app. split; [done|]. split.
  - intros x Hx ->%list_elem_of_singleton. done.
  - apply NoDup_singleton.
Qed.

Lemma add_new_elem (items cs : list string) (c : string) :
  c ∈ cs → c ∈ add_new items cs.
Proof.
  revert items. induction cs as [|x cs IH]; intros items Hc.
  { by apply elem_of_nil in Hc. }
  apply elem_of_cons in Hc as [->|Hc]; [|by apply IH].
  rewrite add_new_cons.
  eapply elem_of_prefix; [|apply add_new_prefix].
  case_bool_decide; [done|]. apply elem_of_app. right. by left.
Qed.

Lemma add_new_present (items cs : list string) :
  (∀ c, c ∈ cs → c ∈ items) → add_new items cs = items.
Proof.
  induction cs as [|x cs IH]; intros Hall; [done|].
  rewrite add_new_cons. rewrite bool_decide_eq_true_2 by (apply Hall; by left).
  apply IH. intros c Hc. apply Hall. by right.
Qed.

Lemma accept_noop (w : ClassWorld) (cls : string) (cs : list string) (l : nat) :
  accepted_ref w cls = Some l →
  (∀ c, c ∈ cs → c ∈ default [] (lists w !! l)) →
  accept w cls cs = Ok w.
Proof.
  intros Hl. induction cs as [|c cs IH]; intros Hall; [done|].
  simpl. unfold accept_one. rewrite Hl.
  rewrite bool_decide_eq_true_2 by (apply Hall; by left). simpl.
  apply IH. intros x Hx. apply Hall. by right.
Qed.

(** X12.  [accept] only appends: the classes already in the list keep
    their places, every class passed is in the list afterwards, a list
    without duplicates stays without duplicates, and accepting the same
    classes once more changes nothing. *)
Theorem accept_appends_once (w w' : ClassWorld) (cls : string) (cs : list string) :
  is_Some (accepted_ref w cls) →
  accept w cls cs = Ok w' →
  accepted_of w cls `prefix_of` accepted_of w' cls
  ∧ (∀ c, c ∈ cs → c ∈ accepted_of w' cls)
  ∧ (NoDup (accepted_of w cls) → NoDup (accepted_of w' cls))
  ∧ accept w' cls cs = Ok w'.
Proof.
  intros [l Hl] Hacc.
  destruct (accept_spec w cls cs l Hl) as (w'' & Hacc' & Hm & Ho & Hitems & _).
  rewrite Hacc in Hacc'. injection Hacc' as <-.
  assert (Hl' : accepted_ref w' cls = Some l) by (by rewrite (accepted_ref_ext w w')).
  unfold accepted_of. rewrite Hl, Hl'. simpl. rewrite Hitems.
  split; [apply add_new_prefix|]. split; [intros c; apply add_new_elem|].
  split; [apply add_new_NoDup|].
  apply (accept_noop w' cls cs l Hl'). intros c Hc. rewrite Hitems.
  by apply add_new_elem.
Qed.

Lemma accept_appends_once_witness :
  accepted_of Ex.world "A"
    `prefix_of` accepted_of (mkClassWorld (mro Ex.world) (own_accepted Ex.world)
                               {[ 0 := ["C"; "D"] ]}) "A"
  ∧ (∀ c, c ∈ ["C"; "D"; "C"] →
       c ∈ accepted_of (mkClassWorld (mro Ex.world) (own_accepted Ex.world)
                          {[ 0 := ["C"; "D"] ]}) "A")
  ∧ (NoDup (accepted_of Ex.world "A") →
     NoDup (accepted_of (mkClassWorld (mro Ex.world) (own_accepted Ex.world)
                           {[ 0 := ["C"; "D"] ]}) "A"))
  ∧ accept (mkClassWorld (mro Ex.world) (own_accepted Ex.world) {[ 0 := ["C"; "D"] ]})
      "A" ["C"; "D"; "C"]
    = Ok (mkClassWorld (mro Ex.world) (own_accepted Ex.world) {[ 0 := ["C"; "D"] ]}).
Proof.
  apply (accept_appends_once Ex.world _ "A" ["C"; "D"; "C"]).
  - by eexists.
  - vm_compute. reflexivity.
Defined.

(** X13.  [accept] on a class leaves alone every class whose
    [accepted_components] is another list object, such as a class that
    assigns the attribute in its own body. *)
Theorem accept_frame (w w' : ClassWorld) (A B : string) (cs : list string) :
  is_Some (accepted_ref w A) →
  accepted_ref w B ≠ accepted_ref w A →
  accept w A cs = Ok w' →
  accepted_ref w' B = accepted_ref w B ∧ accepted_of w' B = accepted_of w B.
Proof.
  intros [l Hl] Hne Hacc.
  destruct (accept_spec w A cs l Hl) as (w'' & Hacc' & Hm & Ho & _ & Hother).
  rewrite Hacc in Hacc'. injection Hacc' as <-.
  assert (HB : accepted_ref w' B = accepted_ref w B) by (by apply accepted_ref_ext).
  split; [done|]. unfold accepted_of. rewrite HB.
  destruct (accepted_ref w B) as [lB|]; [|done]. simpl.
  rewrite Hother; [done|]. intros ->. by rewrite Hl in Hne.
Qed.

Lemma accept_frame_witness :
  accepted_ref (mkClassWorld (mro Ex2.world_own) (own_accepted Ex2.world_own)
                  {[ 0 := ["C"]; 1 := ["D"] ]}) "Own"
    = accepted_ref Ex2.world_own "Own"
  ∧ accepted_of (mkClassWorld (mro Ex2.world_own) (own_accepted Ex2.world_own)
                   {[ 0 := ["C"]; 1 := ["D"] ]}) "Own"
    = accepted_of Ex2.world_own "Own".
Proof.
  apply (accept_frame Ex2.world_own _ "A" "Own" ["C"]).
  - by eexists.
  - discriminate.
  - vm_compute. reflexivity.
Defined.

(** * The registry of components *)

Lemma getcomponentclass_Return reg name c :
  getcomponentclass reg name = Return c → c ∈ reg ∧ obj_name c = name.
Proof.
  induction reg as [|x reg IH]; simpl; [done|].
  case_bool_decide as Hx.
  - intros [= <-]. split; [by left|done].
  - intros [Hin Hn]%IH. split; [by right|done].
Qed.

(** X14.  A lookup by name returns a registered class of that name,
    and it fails, with the exception [No such component], exactly when
    no registered class has the name. *)
Theorem getcomponentclass_spec (reg : list ClassObj) (name : string) :
  (∀ c, getcomponentclass reg name = Return c → c ∈ reg ∧ obj_name c = name)
  ∧ (getcomponentclass reg name
       = Throw (Builtin "Exception" ("No such component: " +:+ name))
     ↔ ∀ c, c ∈ reg → obj_name c ≠ name).
Proof.
  split; [intros c; apply getcomponentclass_Return|].
  induction reg as [|x reg IH]; simpl.
  - split; [|done]. intros _ c Hc. by apply elem_of_nil in Hc.
  - case_bool_decide as Hx.
    + split; [done|]. intros Hall. destruct (Hall x); [by left|done].
    + rewrite IH. split.
      * intros Hall c [->|Hc]%elem_of_cons; [done|by apply Hall].
      * intros Hall c Hc. apply Hall. by right.
Qed.

Lemma getcomponentclass_app reg extra name c :
  getcomponentclass reg name = Return c →
  getcomponentclass (reg ++ extra) name = Return c.
Proof.
  induction reg as [|x reg IH]; simpl; [done|]. by case_bool_decide.
Qed.

(** X15.  The first class registered under a name keeps it: a lookup
    that succeeded gives the same class after any further
    registration, so a class registered later under a name already
    taken is never returned. *)
Theorem registercomponent_keeps_lookup (reg : list ClassObj) (Class c : ClassObj)
    (name : string) :
  getcomponentclass reg name = Return c →
  getcomponentclass (registercomponent reg Class) name = Return c.
Proof.
  intros H. unfold registercomponent. case_bool_decide; [done|].
  by apply getcomponentclass_app.
Qed.

Lemma registercomponent_keeps_lookup_witness :
  getcomponentclass (registercomponent [mkClassObj 1 "Tokenize"] (mkClassObj 2 "Tokenize"))
      "Tokenize"
    = Return (mkClassObj 1 "Tokenize").
Proof.
  apply (registercomponent_keeps_lookup [mkClassObj 1 "Tokenize"] (mkClassObj 2 "Tokenize")).
  reflexivity.
Defined.

(** X16.  A class registered under a name that no registered class
    has is the class that the lookup of its name returns; registering
    keeps a registry without duplicates so, keeps the classes already
    there in their places, and is idempotent. *)
Theorem registercomponent_then_lookup (reg : list ClassObj) (Class : ClassObj) :
  (∀ c, c ∈ reg → obj_name c ≠ obj_name Class) →
  NoDup reg →
  getcomponentclass (registercomponent reg Class) (obj_name Class) = Return Class
  ∧ NoDup (registercomponent reg Class)
  ∧ reg `prefix_of` registercomponent reg Class
  ∧ registercomponent (registercomponent reg Class) Class = registercomponent reg Class.
Proof.
  intros Hfree Hnd.
  assert (Hnot : Class ∉ reg) by (intros Hin; by apply (Hfree Class Hin)).
  unfold registercomponent. rewrite (bool_decide_eq_false_2 _ Hnot).
  split; [|split; [|split]].
  - clear Hnd Hnot. induction reg as [|x reg IH]; simpl.
    + by rewrite bool_decide_eq_true_2.
    + rewrite bool_decide_eq_false_2 by (apply Hfree; by left).
      apply IH. intros c Hc. apply Hfree. by right.
  - apply NoDup_app. split; [done|]. split; [|apply NoDup_singleton].
    by intros x Hx ->%list_elem_of_singleton.
  - by apply prefix_app_r.
  - rewrite bool_decide_eq_true_2; [done|]. apply elem_of_app. right. by left.
Qed.

Lemma registercomponent_then_lookup_witness :
  getcomponentclass (registercomponent [mkClassObj 1 "Tokenize"] (mkClassObj 2 "Parse"))
      (obj_name (mkClassObj 2 "Parse")) = Return (mkClassObj 2 "Parse")
  ∧ NoDup (registercomponent [mkClassObj 1 "Tokenize"] (mkClassObj 2 "Parse"))
  ∧ [mkClassObj 1 "Tokenize"]
      `prefix_of` registercomponent [mkClassObj 1 "Tokenize"] (mkClassObj 2 "Parse")
  ∧ registercomponent (registercomponent [mkClassObj 1 "Tokenize"] (mkClassObj 2 "Parse"))
      (mkClassObj 2 "Parse")
    = registercomponent [mkClassObj 1 "Tokenize"] (mkClassObj 2 "Parse").
Proof.
  apply (registercomponent_then_lookup [mkClassObj 1 "Tokenize"] (mkClassObj 2 "Parse")).
  - intros c ->%list_elem_of_singleton. discriminate.
  - apply NoDup_singleton.
Defined.

(** * Inheriting and passing parameters *)

Lemma inherit_fold_lookup (entries : list (string * ClassAttr))
    (cls : gmap string ClassAttr) (key : string) :
  fold_left inherit_attr entries cls !! key =
    match cls !! key with
    | Some a => Some a
    | None => if reserved key then None else first_parameter key entries
    end.
Proof.
  revert cls. induction entries as [|[k a] entries IH]; intros cls.
  { simpl. destruct (cls !! key); [done|]. by destruct (reserved key). }
  cbn [fold_left]. rewrite IH. clear IH. unfold inherit_attr.
  destruct (reserved k) eqn:Hk.
  - destruct (cls !! key); [done|]. destruct (reserved key) eqn:Hkey; [done|].
    destruct a as [p|]; [|done]. simpl. rewrite bool_decide_eq_false_2; [done|].
    intros ->. congruence.
  - destruct a as [p|]; [|done]. simpl.
    destruct (decide (k = key)) as [->|Hne].
    + rewrite (bool_decide_eq_true_2 (key = key)) by done.
      destruct (cls !! key) eqn:Hc; [by rewrite Hc|].
      by rewrite lookup_insert_eq, Hk.
    + rewrite (bool_decide_eq_false_2 (k = key)) by done.
      destruct (cls !! k); [done|]. by rewrite lookup_insert_ne.
Qed.

Lemma inherit_parameters_concat cls ChildClasses :
  inherit_parameters cls ChildClasses = fold_left inherit_attr (concat ChildClasses) cls.
Proof.
  unfold inherit_parameters. revert cls.
  induction ChildClasses as [|c cs IH]; intros cls; simpl; [done|].
  by rewrite fold_left_app, IH.
Qed.

(** X17.  [inherit_parameters] never replaces an attribute that the
    class has, never copies [instance_name] or [workflow_task], and
    gives every other name the first parameter of that name that the
    child classes declare, in the order of the children. *)
Theorem inherit_parameters_lookup (cls : gmap string ClassAttr)
    (ChildClasses : list (list (string * ClassAttr))) (key : string) :
  inherit_parameters cls ChildClasses !! key =
    match cls !! key with
    | Some a => Some a
    | None =>
        if reserved key then None else first_parameter key (concat ChildClasses)
    end.
Proof. rewrite inherit_parameters_concat. apply inherit_fold_lookup. Qed.

Lemma autopass_fold_lookup (self : gmap string PyVal) (entries : list (string * bool))
    (kwargs : gmap string PyVal) (key : string) :
  fold_left (autopass_attr self) entries kwargs !! key =
    match kwargs !! key with
    | Some v => Some v
    | None =>
        if negb (reserved key) && bool_decide ((key, true) ∈ entries)
        then self !! key else None
    end.
Proof.
  revert kwargs. induction entries as [|[k b] entries IH]; intros kwargs.
  { simpl. destruct (kwargs !! key); [done|]. by rewrite andb_false_r. }
  cbn [fold_left]. rewrite IH. clear IH. unfold autopass_attr.
  destruct (decide (key = k)) as [->|Hne].
  - destruct (reserved k) eqn:Hk; [by destruct (kwargs !! k)|]. simpl.
    destruct b.
    + rewrite (bool_decide_eq_true_2 ((k, true) ∈ (k, true) :: entries)) by (by left).
      destruct (kwargs !! k) as [v|] eqn:Hkw; [by rewrite Hkw|].
      destruct (self !! k) as [v|] eqn:Hs.
      * by rewrite lookup_insert_eq.
      * rewrite Hkw. by case_bool_decide.
    + assert (Hiff : bool_decide ((k, true) ∈ (k, false) :: entries)
                     = bool_decide ((k, true) ∈ entries)).
      { apply bool_decide_ext. rewrite elem_of_cons.
        split; [intros [[= ?]|?]; done|by right]. }
      by rewrite Hiff.
  - assert (Hiff : bool_decide ((key, true) ∈ (k, b) :: entries)
                   = bool_decide ((key, true) ∈ entries)).
    { apply bool_decide_ext. rewrite elem_of_cons.
      split; [intros [[= ? ?]|?]; done|by right]. }
    rewrite Hiff. destruct (reserved k); [done|]. destruct b; [|done].
    destruct (kwargs !! k); [done|]. destruct (self !! k); [|done].
    by rewrite lookup_insert_ne.
Qed.

(** X18.  With a true [autopass] the keyword arguments that reach the
    task are: never [autopass] itself; for every other name the
    explicit value when one was given; otherwise the workflow's value,
    when the name is a parameter of the task class, is not
    [instance_name] or [workflow_task], and the workflow has such an
    attribute; and nothing else. *)
Theorem new_task_autopass (self : gmap string PyVal) (name : string) (cls : ClassInfo)
    (kwargs kwargs' : gmap string PyVal) (v : PyVal) (key : string) :
  kwargs !! "autopass" = Some v →
  truthy v = true →
  new_task_kwargs self (VStr name) cls kwargs = Ok kwargs' →
  kwargs' !! key =
    if bool_decide (key = "autopass") then None
    else
      match kwargs !! key with
      | Some x => Some x
      | None =>
          if negb (reserved key) && bool_decide (key ∈ declared_parameters cls)
          then self !! key else None
      end.
Proof.
  intros Hv Ht. unfold new_task_kwargs. rewrite Hv, Ht. intros [= <-].
  case_bool_decide as Hk.
  - subst key. apply lookup_delete_eq.
  - rewrite lookup_delete_ne by done. rewrite autopass_fold_lookup.
    destruct (kwargs !! key); [done|].
    rewrite (bool_decide_ext _ _ (declared_parameters_elem cls key)). done.
Qed.

Lemma new_task_autopass_witness :
  ({[ "lang" := VStr "nl"; "skip" := VStr "t" ]} : gmap string PyVal) !! "lang" =
    if bool_decide ("lang" = "autopass") then None
    else
      match ({[ "autopass" := VBool true; "skip" := VStr "t" ]} : gmap string PyVal) !! "lang" with
      | Some x => Some x
      | None =>
          if negb (reserved "lang")
             && bool_decide ("lang" ∈ declared_parameters
                               (mkClassInfo "Ucto" [("lang", true); ("skip", true); ("run", false)]))
          then ({[ "lang" := VStr "nl"; "skip" := VStr "p"; "run" := VNone ]}
                  : gmap string PyVal) !! "lang"
          else None
      end.
Proof.
  apply (new_task_autopass
           {[ "lang" := VStr "nl"; "skip" := VStr "p"; "run" := VNone ]} "ucto"
           (mkClassInfo "Ucto" [("lang", true); ("skip", true); ("run", false)])
           {[ "autopass" := VBool true; "skip" := VStr "t" ]}
           {[ "lang" := VStr "nl"; "skip" := VStr "t" ]} (VBool true) "lang").
  - reflexivity.
  - reflexivity.
  - vm_compute. reflexivity.
Defined.

(** * Automatic setup *)

Lemma new_task_kwargs_str self n cls kwargs :
  ∃ kwargs', new_task_kwargs self (VStr n) cls kwargs = Ok kwargs'.
Proof.
  unfold new_task_kwargs. destruct (kwargs !! "autopass") as [v|]; [|by eexists].
  destruct (truthy v); by eexists.
Qed.

Lemma autosetup_loop_match self workflow ty slot before c after prev :
  Forall (λ x, tc_is_task x = true ∧ tc_hasattr x ("in_" +:+ ty) = false) before →
  tc_is_task c = true →
  tc_hasattr c ("in_" +:+ ty) = true →
  autosetup_loop self workflow ty slot (before ++ c :: after) prev
    = autosetup_task self workflow ty slot c.
Proof.
  intros Hall Hc Hi. revert prev.
  induction Hall as [|x before [Ht Hx] _ IH]; intros prev; simpl.
  - by rewrite Hc, Hi.
  - rewrite Ht, Hx. simpl. apply IH.
Qed.

Lemma autosetup_loop_none self workflow ty slot before c prev :
  Forall (λ x, tc_is_task x = true ∧ tc_hasattr x ("in_" +:+ ty) = false) (before ++ [c]) →
  autosetup_loop self workflow ty slot (before ++ [c]) prev
    = Throw (Engine (AutoSetupError
        ("No matching input slots found for the specified task (looking for "
           +:+ ty +:+ " on " +:+ tc_name c +:+ ")"))).
Proof.
  revert prev. induction before as [|x before IH]; intros prev Hall; simpl in *.
  - apply Forall_cons in Hall as [[Ht Hx] _]. by rewrite Ht, Hx.
  - apply Forall_cons in Hall as [[Ht Hx] Hall]. rewrite Ht, Hx. simpl. by apply IH.
Qed.

Lemma setup_default_single self workflow conf ty slot :
  setup_input self = Ok {[ ty := slot ]} →
  setup_default self workflow (Some conf)
    = autosetup_loop self workflow ty slot (candidates conf) None.
Proof.
  intros H. unfold setup_default. rewrite H.
  rewrite bool_decide_eq_false_2 by (rewrite map_size_singleton; lia).
  by rewrite map_to_list_singleton.
Qed.

(** X19.  Automatic setup takes the first class of the configuration
    that has the input slot [in_] followed by the resolved format id;
    the classes before it are passed over and the ones after it are
    not looked at.  The new task carries the name of that class and
    has the resolved slot on that input.  When the class lists no
    [out_] attribute, setup raises [AutoSetupError]; it does not go on
    to a later class. *)
Theorem autosetup_first_match (self workflow : Component) (conf : Configuration)
    (ty : string) (slot : FeedVal) (before after : list TaskClass) (c : TaskClass) :
  setup_input self = Ok {[ ty := slot ]} →
  candidates conf = before ++ c :: after →
  Forall (λ x, tc_is_task x = true ∧ tc_hasattr x ("in_" +:+ ty) = false) before →
  tc_is_task c = true →
  tc_hasattr c ("in_" +:+ ty) = true →
  (has_output_slot c = true →
   ∃ params,
     setup_default self workflow (Some conf)
       = Return (mkWiredTask (mkTask (tc_name c) (tc_name c) params (tc_dir c).*1)
                   ("in_" +:+ ty) slot))
  ∧ (has_output_slot c = false →
     setup_default self workflow (Some conf)
       = Throw (Engine (AutoSetupError ("No output slots found on " +:+ tc_name c)))).
Proof.
  intros Hres Hconf Hall Hc Hi.
  rewrite (setup_default_single _ _ _ _ _ Hres), Hconf.
  rewrite (autosetup_loop_match _ _ _ _ _ _ _ _ Hall Hc Hi).
  unfold autosetup_task.
  destruct (new_task_kwargs_str (component_attrs workflow) (tc_name c)
              (mkClassInfo (tc_name c) (tc_dir c))
              (passparameters_of (component_attrs self) c)) as [kwargs ->].
  split; intros ->; [by eexists|done].
Qed.

Lemma autosetup_first_match_witness :
  (has_output_slot Ex2.ucto = true →
   ∃ params,
     setup_default (Ex.producer "A") (Ex.producer "A")
         (Some (ConfSeq [Ex2.frog; Ex2.ucto; Ex2.frog]))
       = Return (mkWiredTask
                   (mkTask (tc_name Ex2.ucto) (tc_name Ex2.ucto) params (tc_dir Ex2.ucto).*1)
                   ("in_" +:+ "txt") (Single (Ex.source_slot "txt"))))
  ∧ (has_output_slot Ex2.ucto = false →
     setup_default (Ex.producer "A") (Ex.producer "A")
         (Some (ConfSeq [Ex2.frog; Ex2.ucto; Ex2.frog]))
       = Throw (Engine (AutoSetupError ("No output slots found on " +:+ tc_name Ex2.ucto)))).
Proof.
  apply (autosetup_first_match (Ex.producer "A") (Ex.producer "A")
           (ConfSeq [Ex2.frog; Ex2.ucto; Ex2.frog]) "txt" (Single (Ex.source_slot "txt"))
           [Ex2.frog] [Ex2.frog] Ex2.ucto).
  - vm_compute. reflexivity.
  - reflexivity.
  - repeat constructor.
  - reflexivity.
  - reflexivity.
Defined.

(** X20.  When no class of the configuration has the input slot for
    the resolved format id, automatic setup raises [AutoSetupError]
    with the format id and the name of the last class. *)
Theorem autosetup_no_match (self workflow : Component) (conf : Configuration)
    (ty : string) (slot : FeedVal) (before : list TaskClass) (c : TaskClass) :
  setup_input self = Ok {[ ty := slot ]} →
  candidates conf = before ++ [c] →
  Forall (λ x, tc_is_task x = true ∧ tc_hasattr x ("in_" +:+ ty) = false) (before ++ [c]) →
  setup_default self workflow (Some conf)
    = Throw (Engine (AutoSetupError
        ("No matching input slots found for the specified task (looking for "
           +:+ ty +:+ " on " +:+ tc_name c +:+ ")"))).
Proof.
  intros Hres Hconf Hall. rewrite (setup_default_single _ _ _ _ _ Hres), Hconf.
  by apply autosetup_loop_none.
Qed.

Lemma autosetup_no_match_witness :
  setup_default (Ex.producer "A") (Ex.producer "A") (Some (ConfOne Ex2.frog))
    = Throw (Engine (AutoSetupError
        ("No matching input slots found for the specified task (looking for "
           +:+ "txt" +:+ " on " +:+ tc_name Ex2.frog +:+ ")"))).
Proof.
  apply (autosetup_no_match (Ex.producer "A") (Ex.producer "A") (ConfOne Ex2.frog)
           "txt" (Single (Ex.source_slot "txt")) [] Ex2.frog).
  - vm_compute. reflexivity.
  - reflexivity.
  - repeat constructor.
Defined.

(** * Command lines *)

Section GetcmdFacts.

Variable shellsafe : PyVal → outcome string.
Variable pystr : PyVal → string.

Lemma kw_get_remove kw1 kw2 k v name :
  name ≠ k → kw_get (kw1 ++ (k, v) :: kw2) name = kw_get (kw1 ++ kw2) name.
Proof.
  intros Hne. induction kw1 as [|[k' v'] kw1 IH]; simpl.
  - by rewrite bool_decide_eq_false_2.
  - by rewrite IH.
Qed.

Lemma kw_flag_remove kw1 kw2 k v name :
  name ≠ k → kw_flag (kw1 ++ (k, v) :: kw2) name = kw_flag (kw1 ++ kw2) name.
Proof. intros Hne. unfold kw_flag. by rewrite kw_get_remove. Qed.

Lemma option_text_remove kw1 kw2 k v key value :
  starts_dunder k = false →
  option_text shellsafe pystr (kw1 ++ (k, v) :: kw2) key value
    = option_text shellsafe pystr (kw1 ++ kw2) key value.
Proof.
  intros Hk. unfold option_text.
  rewrite !(kw_flag_remove kw1 kw2 k v) by (intros <-; discriminate). done.
Qed.

Lemma collect_opts_remove K K' entries :
  (∀ key value, option_text shellsafe pystr K key value
                = option_text shellsafe pystr K' key value) →
  collect_opts shellsafe pystr K entries = collect_opts shellsafe pystr K' entries.
Proof.
  intros Hext. induction entries as [|[key value] entries IH]; simpl; [done|].
  by rewrite Hext, IH.
Qed.

Lemma collect_opts_skip K kw1 kw2 k v :
  option_text shellsafe pystr K k v = Return None →
  collect_opts shellsafe pystr K (kw1 ++ (k, v) :: kw2)
    = collect_opts shellsafe pystr K (kw1 ++ kw2).
Proof.
  intros Hnone. induction kw1 as [|[key value] kw1 IH]; simpl.
  - rewrite Hnone. simpl. by destruct (collect_opts _ _ K kw2).
  - by rewrite IH.
Qed.

(** X21.  A keyword argument whose value is [None] or [False] is as if
    it had not been passed: the command is the same with and without
    it, for every key that is not an internal option (one that starts
    with two underscores). *)
Theorem getcmd_ignores_unset (cls : string) (executable : option string)
    (args : list string) (kw1 kw2 : list (string * PyVal)) (k : string) (v : PyVal) :
  starts_dunder k = false →
  v = VNone ∨ v = VBool false →
  getcmd shellsafe pystr cls executable args (kw1 ++ (k, v) :: kw2)
    = getcmd shellsafe pystr cls executable args (kw1 ++ kw2).
Proof.
  intros Hk Hv. unfold getcmd. destruct executable as [exe|]; [|done].
  assert (Hopts : collect_opts shellsafe pystr (kw1 ++ (k, v) :: kw2) (kw1 ++ (k, v) :: kw2)
                  = collect_opts shellsafe pystr (kw1 ++ kw2) (kw1 ++ kw2)).
  { rewrite collect_opts_skip by (by destruct Hv as [-> | ->]).
    apply collect_opts_remove. intros key value. by apply option_text_remove. }
  rewrite Hopts. unfold add_redirect.
  rewrite !(kw_get_remove kw1 kw2 k v), (kw_flag_remove kw1 kw2 k v);
    try (intros <-; discriminate). done.
Qed.

Lemma add_words_prefix cmd l : ∃ rest, add_words cmd l = cmd +:+ rest.
Proof.
  destruct l; [exists ""; by rewrite StrFacts.app_nil_r|]. by eexists.
Qed.

Lemma add_redirect_prefix kwargs name sign base rest cmd :
  add_redirect shellsafe kwargs name sign (base +:+ rest) = Return cmd →
  ∃ rest', cmd = base +:+ rest'.
Proof.
  unfold add_redirect. destruct (kw_get kwargs name) as [v|].
  - destruct (shellsafe v) as [s|e]; [|done]. simpl. intros [= <-].
    exists (rest +:+ sign +:+ s). by rewrite StrFacts.app_assoc.
  - intros [= <-]. by eexists.
Qed.

(** X22.  Whenever [getcmd] returns, the command begins with the
    executable, preceded by [java -jar] when the name of the
    executable ends in [.jar]; without an [executable] attribute it
    raises. *)
Theorem getcmd_starts_with_executable (cls : string) (executable : option string)
    (args : list string) (kwargs : list (string * PyVal)) (cmd : string) :
  getcmd shellsafe pystr cls executable args kwargs = Return cmd →
  ∃ exe rest,
    executable = Some exe
    ∧ cmd = (if bool_decide (last4 exe = ".jar") then "java -jar " +:+ exe else exe) +:+ rest.
Proof.
  unfold getcmd. destruct executable as [exe|]; [|done]. intros H. exists exe.
  set (base := if bool_decide (last4 exe = ".jar") then "java -jar " +:+ exe else exe) in *.
  destruct (collect_opts shellsafe pystr kwargs kwargs) as [opts|e]; [|done].
  simpl in H.
  assert (Hwords : ∃ rest,
            (if kw_flag kwargs "__options_last"
             then add_words (add_words base args) opts
             else add_words (add_words base opts) args) = base +:+ rest).
  { destruct (kw_flag kwargs "__options_last").
    - destruct (add_words_prefix base args) as [r1 ->].
      destruct (add_words_prefix (base +:+ r1) opts) as [r2 ->].
      exists (r1 +:+ r2). by rewrite StrFacts.app_assoc.
    - destruct (add_words_prefix base opts) as [r1 ->].
      destruct (add_words_prefix (base +:+ r1) args) as [r2 ->].
      exists (r1 +:+ r2). by rewrite StrFacts.app_assoc. }
  destruct Hwords as [r0 Hr0]. rewrite Hr0 in H.
  destruct (add_redirect shellsafe kwargs "__stdin_from" " < " (base +:+ r0))
    as [c1|e] eqn:H1; [|done].
  apply add_redirect_prefix in H1 as [r1 ->]. simpl in H.
  destruct (add_redirect shellsafe kwargs "__stdout_to" " > " (base +:+ r1))
    as [c2|e] eqn:H2; [|done].
  apply add_redirect_prefix in H2 as [r2 ->]. simpl in H.
  apply add_redirect_prefix in H as [r3 ->]. exists r3. by split.
Qed.

End GetcmdFacts.

Lemma getcmd_ignores_unset_witness :
  getcmd Ex2.quote Ex2.text "Ucto" (Some "ucto") ["in.txt"; "out.xml"]
      ([("L", VStr "nl")] ++ ("verbose", VBool false) :: [("max__len", VInt 80)])
    = getcmd Ex2.quote Ex2.text "Ucto" (Some "ucto") ["in.txt"; "out.xml"]
        ([("L", VStr "nl")] ++ [("max__len", VInt 80)]).
Proof.
  apply (getcmd_ignores_unset Ex2.quote Ex2.text "Ucto" (Some "ucto") ["in.txt"; "out.xml"]
           [("L", VStr "nl")] [("max__len", VInt 80)] "verbose" (VBool false)).
  - reflexivity.
  - right. reflexivity.
Defined.

Lemma getcmd_starts_with_executable_witness :
  ∃ exe rest,
    Some "tool.jar" = Some exe
    ∧ "java -jar tool.jar -L 'nl' --max-len 80 in.txt > 'out.log'"
      = (if bool_decide (last4 exe = ".jar") then "java -jar " +:+ exe else exe) +:+ rest.
Proof.
  apply (getcmd_starts_with_executable Ex2.quote Ex2.text "Tool" (Some "tool.jar") ["in.txt"]
           [("L", VStr "nl"); ("max__len", VInt 80); ("__stdout_to", VStr "out.log")]).
  vm_compute. reflexivity.
Defined.

(** * Running a component *)

(** X23.  A component whose [setup()] returns a list or tuple with at
    least one element cannot be run, even when every element is a
    task: the check of line 281 tests the sequence itself and
    [workflow] raises [ValueError]. *)
Theorem workflow_rejects_task_list (self : Component) (type_str : string)
    (t : option TaskObj) (ts : list (option TaskObj)) :
  setup_chain self = Ok (RetSeq (t :: ts)) →
  workflow self type_str
    = Throw (Builtin "ValueError"
        ("Workflow setup() did not return a valid last task (or sequence of tasks), got "
           +:+ type_str)).
Proof. intros H. unfold workflow. by rewrite H. Qed.

Lemma workflow_rejects_task_list_witness :
  workflow Ex2.two_tasks "<class 'list'>"
    = Throw (Builtin "ValueError"
        ("Workflow setup() did not return a valid last task (or sequence of tasks), got "
           +:+ "<class 'list'>")).
Proof.
  apply (workflow_rejects_task_list Ex2.two_tasks "<class 'list'>"
           (Some (Ex.producer_task "A")) [Some (Ex.producer_task "B")]).
  vm_compute. reflexivity.
Defined.

(** * Fan-out *)

Lemma split_comma_length (s : string) :
  length (split_comma s) = S (count_commas s).
Proof.
  induction s as [|c s IH]; [done|]. simpl.
  destruct (Ascii.eqb c ","); simpl; [by rewrite IH|].
  destruct (split_comma s) as [|piece pieces]; [done|]. simpl in *. lia.
Qed.

Section ParallelFacts.

Context {T : Type}.
Variable json_loads : string → outcome (gmap string PyVal).
Variable new_task : string → ClassObj → gmap string PyVal → outcome T.

Lemma parallel_tasks_map component C d files (task_for : string → T) :
  d !! "inputfile" = None →
  (∀ f, f ∈ files →
     new_task component C (<["inputfile" := VStr f]> d) = Return (task_for f)) →
  parallel_tasks new_task component C d files = Return (map task_for files).
Proof.
  intros Hi. induction files as [|f files IH]; intros Hnew; simpl; [done|].
  unfold parallel_task. rewrite Hi, (Hnew f) by (by left). simpl.
  rewrite IH by (intros g Hg; apply Hnew; by right). done.
Qed.

(** X24.  [Parallel.workflow] calls [new_task] once per input file, in
    the order of the files, each time with the instance name
    [self.component], the registered class of that name and the
    keyword arguments of [passparameters] together with the file as
    [inputfile]; when every call returns, the workflow returns the
    tasks in that order.  A string of input files with [n] commas gives
    [n + 1] calls, so never none. *)
Theorem parallel_one_task_per_file (COMPONENTS : list ClassObj)
    (inputfiles : InputFiles) (component : string)
    (passparameters : PassArg) (d : gmap string PyVal) (C : ClassObj)
    (task_for : string → T) :
  normalise_passparameters json_loads passparameters = Return d →
  d !! "inputfile" = None →
  getcomponentclass COMPONENTS component = Return C →
  (∀ f, f ∈ normalise_inputfiles inputfiles →
     new_task component C (<["inputfile" := VStr f]> d) = Return (task_for f)) →
  Parallel_workflow json_loads new_task COMPONENTS inputfiles component passparameters
    = Return (map task_for (normalise_inputfiles inputfiles))
  ∧ ∀ s, inputfiles = FilesStr s →
      length (normalise_inputfiles inputfiles) = S (count_commas s).
Proof.
  intros Hpp Hi HC Hnew. split.
  - unfold Parallel_workflow. rewrite Hpp. simpl. rewrite HC. simpl.
    by apply parallel_tasks_map.
  - intros s ->. apply split_comma_length.
Qed.

End ParallelFacts.

Lemma parallel_one_task_per_file_witness :
  Parallel_workflow Ex2.no_json Ex2.make_task [mkClassObj 1 "Ucto"]
      (FilesStr "a.txt,b.txt") "Ucto" (PassDict {[ "language" := VStr "nl" ]})
    = Return (map (λ f, ("Ucto", mkClassObj 1 "Ucto",
                          <["inputfile" := VStr f]> {[ "language" := VStr "nl" ]}))
                (normalise_inputfiles (FilesStr "a.txt,b.txt")))
  ∧ ∀ s, FilesStr "a.txt,b.txt" = FilesStr s →
      length (normalise_inputfiles (FilesStr "a.txt,b.txt")) = S (count_commas s).
Proof.
  apply (parallel_one_task_per_file Ex2.no_json Ex2.make_task [mkClassObj 1 "Ucto"]
           (FilesStr "a.txt,b.txt") "Ucto" (PassDict {[ "language" := VStr "nl" ]})
           {[ "language" := VStr "nl" ]} (mkClassObj 1 "Ucto")
           (λ f, ("Ucto", mkClassObj 1 "Ucto",
                  <["inputfile" := VStr f]> {[ "language" := VStr "nl" ]})));
    reflexivity.
Defined.
